(** * Wolfie3D: a shallow embedding of the game core of [wolfie3d/game.py]

    The development follows the Python module top to bottom: configuration
    constants, the grid map helpers, the three entities ([Bullet], [Enemy],
    [AmmoBox]), the [WaveManager], the DDA ray caster, the billboard
    projector, the rotation step of [handle_input] and the simulation phase
    of the frame loop in [main].

    Conventions of the embedding.
    - Python [int] is [Z].  Python [float] is idealised as an exact rational
      [Q]: rounding, infinities and NaN are not modelled.  The only
      transcendental functions of the core are [math.hypot] (taken as a
      section variable where it is called) and [math.cos]/[math.sin] (the
      rotation step is therefore stated over the real numbers, in module
      [Rotation]).
    - The module-level globals ([MAP], the player position, the camera basis,
      [player_ammo]) are passed explicitly.
    - Exceptions are values of [res]; the [while] loop of the ray caster is a
      fuelled fixpoint, and enough fuel is shown to exist.
    - Sound playback, printing and the assembly of vertex lists for OpenGL
      are effects of the external collaborators and are not modelled. *)

From Stdlib Require Import ZArith QArith Qabs Qround Qminmax Lqa Lia List Bool.
From Stdlib Require Reals.
Import ListNotations.

Local Open Scope Q_scope.

(** ** Python primitives *)

Inductive error : Set := IndexError | ZeroDivisionError.

Inductive res (A : Type) : Type :=
| Ok (a : A)
| Raise (e : error).

Arguments Ok {A} a.
Arguments Raise {A} e.

Definition bind {A B : Type} (r : res A) (k : A -> res B) : res B :=
  match r with
  | Ok a => k a
  | Raise e => Raise e
  end.

Notation "x <- r ;; k" := (bind r (fun x => k))
  (at level 61, r at next level, right associativity).

(** [a < b] and [a != b] on floats, as booleans. *)
Definition Qltb (a b : Q) : bool := negb (Qle_bool b a).
Definition Qneqb (a b : Q) : bool := negb (Qeq_bool a b).

(** [int(x)] on a float truncates toward zero. *)
Definition py_int (q : Q) : Z := Z.quot (Qnum q) (Zpos (Qden q)).

(** [a / b] on floats raises on a zero divisor. *)
Definition py_div (a b : Q) : res Q :=
  if Qeq_bool b 0 then Raise ZeroDivisionError else Ok (a / b).

(** [min(a, b)] returns the first argument on ties. *)
Definition py_min (a b : Q) : Q := if Qltb b a then b else a.

(** [l[i]]: negative indices count from the end, out of range raises. *)
Definition py_index {A : Type} (l : list A) (i : Z) : res A :=
  let j := if (i <? 0)%Z then (Z.of_nat (length l) + i)%Z else i in
  if (j <? 0)%Z then Raise IndexError
  else match nth_error l (Z.to_nat j) with
       | Some a => Ok a
       | None => Raise IndexError
       end.

(** Monadic iteration over a list, left to right. *)
Fixpoint mapM {A B : Type} (f : A -> res B) (l : list A) : res (list B) :=
  match l with
  | [] => Ok []
  | a :: l' => b <- f a ;; bs <- mapM f l' ;; Ok (b :: bs)
  end.

(** ** Configuration *)

Definition WIDTH : Z := 1024.
Definition HEIGHT : Z := 600.
Definition HALF_W : Z := WIDTH / 2.
Definition HALF_H : Z := HEIGHT / 2.
Definition FAR_PLANE : Q := 100.

(** ** Grid map *)

Definition grid : Type := list (list Z).

Definition MAP : grid :=
  [ [1;1;1;1;1;1;1;1;1;1;1;1;1;1;1;1;1;1;1;1];
    [1;0;0;0;0;0;0;0;0;0;0;0;0;0;0;0;0;0;0;1];
    [1;0;2;0;0;0;0;0;0;0;0;3;0;0;0;0;0;4;0;1];
    [1;0;2;0;0;0;0;0;0;0;0;3;0;0;0;0;0;4;0;1];
    [1;0;2;0;0;0;0;0;0;0;0;3;0;0;0;0;0;4;0;1];
    [1;0;2;0;0;0;0;0;0;0;0;3;0;0;0;0;0;4;0;1];
    [1;0;2;0;0;0;0;0;0;0;0;3;0;0;0;0;0;4;0;1];
    [1;0;2;0;0;0;0;0;0;0;0;3;0;0;0;0;0;4;0;1];
    [1;0;2;0;0;0;0;0;0;0;0;3;0;0;0;0;0;4;0;1];
    [1;0;0;0;0;0;0;0;0;0;0;0;0;0;0;0;0;0;0;1];
    [1;0;0;0;0;0;0;0;0;0;0;0;0;0;0;0;0;0;0;1];
    [1;0;0;0;0;0;0;0;0;0;0;0;0;0;0;0;0;0;0;1];
    [1;0;2;2;2;2;2;0;0;0;0;3;3;3;0;0;4;4;4;1];
    [1;0;0;0;0;0;2;0;0;0;0;3;0;0;0;0;4;0;0;1];
    [1;0;0;0;0;0;2;0;0;0;0;3;0;0;0;0;0;0;0;1];
    [1;0;0;0;0;0;2;0;0;0;0;3;0;0;0;0;4;0;0;1];
    [1;0;0;0;0;0;2;0;0;0;0;3;0;0;0;0;4;0;0;1];
    [1;0;0;0;0;0;2;0;0;0;0;3;0;0;0;0;4;0;0;1];
    [1;0;0;0;0;0;2;0;0;0;0;3;0;0;0;0;4;0;0;1];
    [1;1;1;1;1;1;1;1;1;1;1;1;1;1;1;1;1;1;1;1] ]%Z.

(** [MAP_W = len(MAP[0])], [MAP_H = len(MAP)]. *)
Definition MAP_W (m : grid) : Z := Z.of_nat (length (nth 0 m [])).
Definition MAP_H (m : grid) : Z := Z.of_nat (length m).

Definition in_map (m : grid) (ix iy : Z) : bool :=
  ((0 <=? ix) && (ix <? MAP_W m) && (0 <=? iy) && (iy <? MAP_H m))%Z.

(** [MAP[iy][ix]]. *)
Definition cell (m : grid) (ix iy : Z) : res Z :=
  row <- py_index m iy ;; py_index row ix.

(** [in_map(ix, iy) and MAP[iy][ix] > 0]: the lookup happens only in range. *)
Definition is_wall (m : grid) (ix iy : Z) : res bool :=
  if in_map m ix iy then v <- cell m ix iy ;; Ok (0 <? v)%Z else Ok false.

Definition clamp01 (x : Q) : Q :=
  if Qltb x 0 then 0
  else if Qltb 1 x then 1
  else x.

(** The player globals read by the entities and the renderers. *)
Record camera : Type := mkCamera {
  player_x : Q;
  player_y : Q;
  dir_x : Q;
  dir_y : Q;
  plane_x : Q;
  plane_y : Q
}.

(** ** Bullet *)

Module Bullet.

Record t : Type := mk {
  x : Q;
  y : Q;
  vx : Q;
  vy : Q;
  alive : bool;
  age : Q;
  height_param : Q
}.

Definition init (x y vx vy : Q) : t :=
  mk x y vx vy true 0 0.2.

Definition update (m : grid) (self : t) (dt : Q) : res t :=
  if negb (alive self) then Ok self
  else
    let nx := x self + vx self * dt in
    let ny := y self + vy self * dt in
    w <- is_wall m (py_int nx) (py_int ny) ;;
    if w then
      Ok (mk (x self) (y self) (vx self) (vy self) false
             (age self) (height_param self))
    else
      Ok (mk nx ny (vx self) (vy self) (alive self)
             (age self + dt)
             (py_min 0.65 (height_param self + 0.35 * dt))).

End Bullet.

(** ** Enemy *)

Module Enemy.

Record t : Type := mk {
  x : Q;
  y : Q;
  alive : bool;
  radius : Q;
  base_speed : Q;
  speed : Q;
  height_param : Q;
  health : Z
}.

Definition init (x y : Q) (health : Z) (speed_multiplier : Q) : t :=
  mk x y true 0.35 1.4 (1.4 * speed_multiplier) 0.5 health.

Definition set_pos (self : t) (x' y' : Q) : t :=
  mk x' y' (alive self) (radius self) (base_speed self) (speed self)
     (height_param self) (health self).

(** The X move is committed before the Y test reads [self.x]. *)
Definition _try_move (m : grid) (self : t) (nx ny : Q) : res t :=
  wx <- is_wall m (py_int nx) (py_int (y self)) ;;
  let self1 := if negb wx then set_pos self nx (y self) else self in
  wy <- is_wall m (py_int (x self1)) (py_int ny) ;;
  Ok (if negb wy then set_pos self1 (x self1) ny else self1).

(** Returns the mutated enemy and the boolean result. *)
Definition take_damage (self : t) (amount : Z) : t * bool :=
  let h := (health self - amount)%Z in
  if (h <=? 0)%Z then
    (mk (x self) (y self) false (radius self) (base_speed self)
        (speed self) (height_param self) h, true)
  else
    (mk (x self) (y self) (alive self) (radius self) (base_speed self)
        (speed self) (height_param self) h, false).

Section WithMath.
(** [math.hypot]. *)
Variable hypot : Q -> Q -> Q.

Definition update (m : grid) (cam : camera) (self : t) (dt : Q) : res t :=
  if negb (alive self) then Ok self
  else
    let dx := player_x cam - x self in
    let dy := player_y cam - y self in
    let dist := hypot dx dy + 1e-9 in
    if Qltb 0.75 dist then
      ux <- py_div dx dist ;;
      uy <- py_div dy dist ;;
      let step := speed self * dt in
      _try_move m self (x self + ux * step) (y self + uy * step)
    else Ok self.
End WithMath.

End Enemy.

(** ** Wave manager *)

Module WaveManager.

Record t : Type := mk {
  current_wave : Z;
  enemies_spawned : Z;
  wave_in_progress : bool;
  between_waves : bool;
  wave_start_time : Q;
  wave_countdown : Q;
  countdown_duration : Q
}.

Definition init : t := mk 0 0 false false 0 0 5.

Definition get_enemies_for_wave (self : t) : Z :=
  (3 + (current_wave self - 1) * 2)%Z.

(** [//] is floor division. *)
Definition get_enemy_health (self : t) : Z :=
  (1 + (current_wave self - 1) / 3)%Z.

Definition get_enemy_speed_multiplier (self : t) : Q :=
  1 + py_min 1 (inject_Z (current_wave self - 1) * 0.1).

(** [start_next_wave]; [now] is the value of [time.time()]. *)
Definition start_next_wave (now : Q) (self : t) : t :=
  mk (current_wave self + 1) 0 true false now
     (wave_countdown self) (countdown_duration self).

Definition start_countdown (self : t) : t :=
  mk (current_wave self) (enemies_spawned self) false true
     (wave_start_time self) (countdown_duration self)
     (countdown_duration self).

Definition set_countdown (self : t) (c : Q) : t :=
  mk (current_wave self) (enemies_spawned self) (wave_in_progress self)
     (between_waves self) (wave_start_time self) c (countdown_duration self).

(** [sum(1 for e in enemies if e.alive)]. *)
Definition alive_count (enemies : list Enemy.t) : Z :=
  Z.of_nat (length (filter Enemy.alive enemies)).

(** The three [if] blocks of [update], in order. *)
Definition update (now : Q) (self : t) (dt : Q) (enemies : list Enemy.t) : t :=
  let self1 :=
    if between_waves self then
      let s := set_countdown self (wave_countdown self - dt) in
      if Qle_bool (wave_countdown s) 0 then start_next_wave now s else s
    else self in
  let self2 :=
    if negb (wave_in_progress self1) && negb (between_waves self1)
    then start_next_wave now self1 else self1 in
  if wave_in_progress self2 && (0 <? enemies_spawned self2)%Z then
    if (alive_count enemies =? 0)%Z then start_countdown self2 else self2
  else self2.

Definition add_spawned (self : t) : t :=
  mk (current_wave self) (enemies_spawned self + 1) (wave_in_progress self)
     (between_waves self) (wave_start_time self) (wave_countdown self)
     (countdown_duration self).

(** [for _ in range(n): ...]: iteration [i] appends an enemy at [pos i], the
    position the [i]-th call of [find_random_valid_position()] returns. *)
Fixpoint spawn_loop (pos : nat -> Q * Q) (health : Z) (speed_mult : Q)
         (n i : nat) (self : t) (enemies : list Enemy.t)
  : t * list Enemy.t :=
  match n with
  | O => (self, enemies)
  | S n' =>
      let '(x, y) := pos i in
      spawn_loop pos health speed_mult n' (S i) (add_spawned self)
                 (enemies ++ [Enemy.init x y health speed_mult])
  end.

Definition spawn_enemies (pos : nat -> Q * Q) (self : t)
           (enemies : list Enemy.t) : t * list Enemy.t :=
  if negb (wave_in_progress self) then (self, enemies)
  else
    let enemies_to_spawn :=
      (get_enemies_for_wave self - enemies_spawned self)%Z in
    if (enemies_to_spawn <=? 0)%Z then (self, enemies)
    else
      let health := get_enemy_health self in
      let speed_mult := get_enemy_speed_multiplier self in
      spawn_loop pos health speed_mult (Z.to_nat enemies_to_spawn) 0
                 self enemies.

Definition get_wave_info (self : t) : Z * Q * bool :=
  (current_wave self, wave_countdown self, between_waves self).

End WaveManager.

(** ** Ammo box *)

Module AmmoBox.

Record t : Type := mk {
  x : Q;
  y : Q;
  alive : bool;
  radius : Q;
  height_param : Q;
  pickup_distance : Q
}.

Definition init (x y : Q) : t := mk x y true 0.35 0.3 0.8.

Section WithMath.
Variable hypot : Q -> Q -> Q.

(** Takes and returns the global [player_ammo] next to the box. *)
Definition update (cam : camera) (player_ammo : Z) (self : t) (dt : Q)
  : t * Z :=
  if negb (alive self) then (self, player_ammo)
  else
    let dx := player_x cam - x self in
    let dy := player_y cam - y self in
    let dist := hypot dx dy in
    if Qle_bool dist (pickup_distance self) then
      (mk (x self) (y self) false (radius self) (height_param self)
          (pickup_distance self), 20%Z)
    else (self, player_ammo).
End WithMath.

End AmmoBox.

(** ** Ray caster: the body of [cast_and_build_wall_batches] *)

Module Raycaster.

(** The variables the DDA loop mutates. *)
Record dda : Type := mkDda {
  side_dist_x : Q;
  side_dist_y : Q;
  map_x : Z;
  map_y : Z;
  side : Z;
  tex_id : Z
}.

Definition set_tex (s : dda) (t : Z) : dda :=
  mkDda (side_dist_x s) (side_dist_y s) (map_x s) (map_y s) (side s) t.

Section Loop.
Variable m : grid.
Variables delta_dist_x delta_dist_y : Q.
Variables step_x step_y : Z.

(** One step along the axis with the smaller accumulated distance. *)
Definition advance (s : dda) : dda :=
  if Qltb (side_dist_x s) (side_dist_y s) then
    mkDda (side_dist_x s + delta_dist_x) (side_dist_y s)
          (map_x s + step_x) (map_y s) 0 (tex_id s)
  else
    mkDda (side_dist_x s) (side_dist_y s + delta_dist_y)
          (map_x s) (map_y s + step_y) 1 (tex_id s).

(** [while hit == 0: ...]; [None] is fuel exhaustion only. *)
Fixpoint dda_loop (fuel : nat) (s : dda) : option (res dda) :=
  match fuel with
  | O => None
  | S fuel' =>
      let s1 := advance s in
      if negb (in_map m (map_x s1) (map_y s1)) then
        Some (Ok (set_tex s1 1))
      else
        match cell m (map_x s1) (map_y s1) with
        | Raise e => Some (Raise e)
        | Ok v =>
            if (0 <? v)%Z then Some (Ok (set_tex s1 v))
            else dda_loop fuel' s1
        end
  end.
End Loop.

(** The values computed for one screen column. *)
Record wall_hit : Type := mkHit {
  perp_wall_dist : Q;
  hit_tex_id : Z;
  u : Q;
  hit_side : Z;
  hit_map_x : Z;
  hit_map_y : Z;
  line_height : Z;
  draw_start : Z;
  draw_end : Z;
  depth : Q
}.

Record ray : Type := mkRay {
  ray_dir_x : Q;
  ray_dir_y : Q;
  delta_dist_x : Q;
  delta_dist_y : Q;
  step_x : Z;
  step_y : Z;
  start : dda
}.

(** Lines 789-813: the ray of column [x] and the state before the loop. *)
Definition setup (cam : camera) (x : Z) : ray :=
  let camera_x := 2 * inject_Z x / inject_Z WIDTH - 1 in
  let ray_dir_x := dir_x cam + plane_x cam * camera_x in
  let ray_dir_y := dir_y cam + plane_y cam * camera_x in
  let map_x := py_int (player_x cam) in
  let map_y := py_int (player_y cam) in
  let delta_dist_x := if Qneqb ray_dir_x 0 then Qabs (1 / ray_dir_x) else 1e30 in
  let delta_dist_y := if Qneqb ray_dir_y 0 then Qabs (1 / ray_dir_y) else 1e30 in
  let '(step_x, side_dist_x) :=
    if Qltb ray_dir_x 0
    then ((-1)%Z, (player_x cam - inject_Z map_x) * delta_dist_x)
    else (1%Z, (inject_Z map_x + 1 - player_x cam) * delta_dist_x) in
  let '(step_y, side_dist_y) :=
    if Qltb ray_dir_y 0
    then ((-1)%Z, (player_y cam - inject_Z map_y) * delta_dist_y)
    else (1%Z, (inject_Z map_y + 1 - player_y cam) * delta_dist_y) in
  mkRay ray_dir_x ray_dir_y delta_dist_x delta_dist_y step_x step_y
        (mkDda side_dist_x side_dist_y map_x map_y 0 1).

(** Lines 831-836: the perpendicular distance and the hit position along
    the wall face, for the axis on which the hit occurred. *)
Definition hit_distance (cam : camera) (r : ray) (s : dda) : Q * Q :=
  if (side s =? 0)%Z then
    let p := (inject_Z (map_x s) - player_x cam
              + inject_Z (1 - step_x r) / 2)
             / (if Qneqb (ray_dir_x r) 0 then ray_dir_x r else 1e-9) in
    (p, player_y cam + p * ray_dir_y r)
  else
    let p := (inject_Z (map_y s) - player_y cam
              + inject_Z (1 - step_y r) / 2)
             / (if Qneqb (ray_dir_y r) 0 then ray_dir_y r else 1e-9) in
    (p, player_x cam + p * ray_dir_x r).

(** Lines 838-859: texture coordinate, screen extent and depth. *)
Definition finish (cam : camera) (r : ray) (s : dda) : res wall_hit :=
  let '(perp_wall_dist, wall_x) := hit_distance cam r s in
  let wall_x := wall_x - inject_Z (Qfloor wall_x) in
  let u :=
    if ((side s =? 0)%Z && Qltb 0 (ray_dir_x r))
       || ((side s =? 1)%Z && Qltb (ray_dir_y r) 0)
    then 1 - wall_x else wall_x in
  h <- py_div (inject_Z HEIGHT) (perp_wall_dist + 1e-6) ;;
  let line_height := py_int h in
  let draw_start := Z.max 0 ((- line_height) / 2 + HALF_H) in
  let draw_end := Z.min (HEIGHT - 1) (line_height / 2 + HALF_H) in
  let depth := clamp01 (perp_wall_dist / FAR_PLANE) in
  Ok (mkHit perp_wall_dist (tex_id s) u (side s) (map_x s) (map_y s)
            line_height draw_start draw_end depth).

(** The DDA walk of column [x]. *)
Definition walk (fuel : nat) (m : grid) (cam : camera) (x : Z)
  : option (res dda) :=
  let r := setup cam x in
  dda_loop m (delta_dist_x r) (delta_dist_y r) (step_x r) (step_y r)
           fuel (start r).

(** One iteration of [for x in range(WIDTH)]. *)
Definition cast_column (fuel : nat) (m : grid) (cam : camera) (x : Z)
  : option (res wall_hit) :=
  match walk fuel m cam x with
  | None => None
  | Some (Raise e) => Some (Raise e)
  | Some (Ok s) => Some (finish cam (setup cam x) s)
  end.

End Raycaster.

(** ** Billboard projector: the body of [build_sprites_batch] *)

Module Sprites.

Record quad : Type := mkQuad {
  trans_x : Q;
  trans_y : Q;
  sprite_screen_x : Z;
  sprite_h : Z;
  draw_start_x : Z;
  draw_end_x : Z;
  draw_start_y : Z;
  draw_end_y : Z;
  depth : Q
}.

(** One iteration of [for b in bullets]; [None] is [continue]. *)
Definition project (cam : camera) (b : Bullet.t) : res (option quad) :=
  let spr_x := Bullet.x b - player_x cam in
  let spr_y := Bullet.y b - player_y cam in
  inv_det <- py_div 1 (plane_x cam * dir_y cam - dir_x cam * plane_y cam
                       + 1e-9) ;;
  let trans_x := inv_det * (dir_y cam * spr_x - dir_x cam * spr_y) in
  let trans_y := inv_det * ((- plane_y cam) * spr_x + plane_x cam * spr_y) in
  if Qle_bool trans_y 0 then Ok None
  else
    r <- py_div trans_x trans_y ;;
    let sprite_screen_x := py_int ((inject_Z WIDTH / 2) * (1 + r)) in
    q <- py_div (inject_Z HEIGHT) trans_y ;;
    let sprite_h := Z.abs (py_int q) in
    let sprite_w := sprite_h in
    let v_shift :=
      py_int ((0.5 - Bullet.height_param b) * inject_Z sprite_h) in
    let draw_start_y := Z.max 0 ((- sprite_h) / 2 + HALF_H + v_shift) in
    let draw_end_y := Z.min (HEIGHT - 1) (draw_start_y + sprite_h) in
    let draw_start_x := ((- sprite_w) / 2 + sprite_screen_x)%Z in
    let draw_end_x := (draw_start_x + sprite_w)%Z in
    if ((draw_end_x <? 0) || (WIDTH <=? draw_start_x))%Z then Ok None
    else
      let draw_start_x := Z.max 0 draw_start_x in
      let draw_end_x := Z.min (WIDTH - 1) draw_end_x in
      let depth := clamp01 (trans_y / FAR_PLANE) in
      Ok (Some (mkQuad trans_x trans_y sprite_screen_x sprite_h
                       draw_start_x draw_end_x draw_start_y draw_end_y
                       depth)).

Fixpoint build_sprites_batch (cam : camera) (bullets : list Bullet.t)
  : res (list quad) :=
  match bullets with
  | [] => Ok []
  | b :: bs =>
      q <- project cam b ;;
      rest <- build_sprites_batch cam bs ;;
      Ok (match q with Some v => v :: rest | None => rest end)
  end.

End Sprites.

(** ** Simulation phase of the frame loop: lines 1514-1555 of [main] *)

Module Frame.

Record state : Type := mk {
  bullets : list Bullet.t;
  enemies : list Enemy.t;
  ammo_boxes : list AmmoBox.t;
  player_ammo : Z;
  ammo_box_spawn_timer : Q
}.

Definition ammo_box_spawn_interval : Q := 20.

Definition consume (b : Bullet.t) : Bullet.t :=
  Bullet.mk (Bullet.x b) (Bullet.y b) (Bullet.vx b) (Bullet.vy b) false
            (Bullet.age b) (Bullet.height_param b).

(** [for e in enemies: ...] for one alive bullet: the first alive enemy
    whose circle contains the bullet takes one point of damage and the
    scan stops.  Returns the enemy list and whether the bullet was used. *)
Fixpoint hit_first (b : Bullet.t) (es : list Enemy.t)
  : list Enemy.t * bool :=
  match es with
  | [] => ([], false)
  | e :: es' =>
      let dx := Enemy.x e - Bullet.x b in
      let dy := Enemy.y e - Bullet.y b in
      if Enemy.alive e
         && Qle_bool (dx * dx + dy * dy) (Enemy.radius e * Enemy.radius e)
      then (fst (Enemy.take_damage e 1) :: es', true)
      else let (es1, used) := hit_first b es' in (e :: es1, used)
  end.

(** [for b in bullets: ...]: the enemy list is shared by all bullets. *)
Fixpoint step_bullets (m : grid) (dt : Q)
         (bs : list Bullet.t) (es : list Enemy.t)
  : res (list Bullet.t * list Enemy.t) :=
  match bs with
  | [] => Ok ([], es)
  | b :: bs' =>
      b1 <- Bullet.update m b dt ;;
      let '(b2, es1) :=
        if negb (Bullet.alive b1) then (b1, es)
        else
          let (es1, used) := hit_first b1 es in
          (if used then consume b1 else b1, es1) in
      r <- step_bullets m dt bs' es1 ;;
      Ok (b2 :: fst r, snd r)
  end.

Section WithMath.
Variable hypot : Q -> Q -> Q.

(** [for box in ammo_boxes: box.update(dt)], threading [player_ammo]. *)
Fixpoint step_boxes (cam : camera) (dt : Q)
         (boxes : list AmmoBox.t) (ammo : Z) : list AmmoBox.t * Z :=
  match boxes with
  | [] => ([], ammo)
  | box :: rest =>
      let (box1, ammo1) := AmmoBox.update hypot cam ammo box dt in
      let (rest1, ammo2) := step_boxes cam dt rest ammo1 in
      (box1 :: rest1, ammo2)
  end.

(** [spawn] is the position [find_random_valid_position()] returns when
    the spawn branch calls it. *)
Definition simulate (m : grid) (cam : camera) (dt : Q) (spawn : Q * Q)
           (st : state) : res state :=
  r <- step_bullets m dt (bullets st) (enemies st) ;;
  let bullets1 := filter Bullet.alive (fst r) in
  enemies1 <- mapM (fun e => Enemy.update hypot m cam e dt) (snd r) ;;
  let (boxes1, ammo1) :=
    step_boxes cam dt (ammo_boxes st) (player_ammo st) in
  let boxes2 := filter AmmoBox.alive boxes1 in
  let timer := ammo_box_spawn_timer st + dt in
  if Qle_bool ammo_box_spawn_interval timer
     && (Z.of_nat (length boxes2) <? 3)%Z
  then Ok (mk bullets1 enemies1
              (boxes2 ++ [AmmoBox.init (fst spawn) (snd spawn)]) ammo1 0)
  else Ok (mk bullets1 enemies1 boxes2 ammo1 timer).
End WithMath.

(** The three collections hold alive entities only. *)
Definition all_alive (st : state) : bool :=
  forallb Bullet.alive (bullets st)
  && forallb Enemy.alive (enemies st)
  && forallb AmmoBox.alive (ammo_boxes st).

End Frame.

(** ** Rotation step of [handle_input]: lines 1359-1370

    [math.cos] and [math.sin] are the real functions. *)

Module Rotation.
Import Reals.
Local Open Scope R_scope.

Record basis : Type := mk {
  dir_x : R;
  dir_y : R;
  plane_x : R;
  plane_y : R
}.

(** The held keys the rotation step reads. *)
Record keys : Type := mkKeys {
  K_LEFT : bool;
  K_q : bool;
  K_RIGHT : bool;
  K_e : bool
}.

Definition ROT_SPEED : R := 2.

Definition rot_of (k : keys) (dt : R) : R :=
  let rot := 0 in
  let rot := if K_LEFT k || K_q k then rot - ROT_SPEED * dt else rot in
  let rot := if K_RIGHT k || K_e k then rot + ROT_SPEED * dt else rot in
  rot.

(** [if rot != 0.0: ...]. *)
Definition rotate (rot : R) (b : basis) : basis :=
  if Req_dec_T rot 0 then b
  else
    let cosr := cos rot in
    let sinr := sin rot in
    let ndx := dir_x b * cosr - dir_y b * sinr in
    let ndy := dir_x b * sinr + dir_y b * cosr in
    let npx := plane_x b * cosr - plane_y b * sinr in
    let npy := plane_x b * sinr + plane_y b * cosr in
    mk ndx ndy npx npy.

Definition handle_input_rotation (k : keys) (dt : R) (b : basis) : basis :=
  rotate (rot_of k dt) b.

(** [dir_x*plane_y - dir_y*plane_x]. *)
Definition det (b : basis) : R :=
  dir_x b * plane_y b - dir_y b * plane_x b.

(** The matrix [[c, -s], [s, c]] applied to a vector. *)
Definition apply_matrix (c s : R) (v : R * R) : R * R :=
  (fst v * c - snd v * s, fst v * s + snd v * c).

End Rotation.

(** ** Screen coordinates: [column_ndc], [y_ndc], [dim_for_side] *)

Module Ndc.

Definition column_ndc (x : Z) : Q * Q :=
  let x_left := (2 * inject_Z x) / inject_Z WIDTH - 1 in
  let x_right := (2 * inject_Z (x + 1)) / inject_Z WIDTH - 1 in
  (x_left, x_right).

Definition y_ndc (y_pix : Z) : Q :=
  1 - 2 * (inject_Z y_pix / inject_Z HEIGHT).

Definition dim_for_side (side : Z) : Q :=
  if (side =? 1)%Z then 0.78 else 1.

End Ndc.

(** ** The other billboards: [build_enemies_batch], [build_ammo_boxes_batch] *)

Module Billboards.

(** One iteration of [for e in enemies]. *)
Definition project_enemy (cam : camera) (e : Enemy.t)
  : res (option Sprites.quad) :=
  if negb (Enemy.alive e) then Ok None
  else
    let spr_x := Enemy.x e - player_x cam in
    let spr_y := Enemy.y e - player_y cam in
    inv_det <- py_div 1 (plane_x cam * dir_y cam - dir_x cam * plane_y cam
                         + 1e-9) ;;
    let trans_x := inv_det * (dir_y cam * spr_x - dir_x cam * spr_y) in
    let trans_y := inv_det * ((- plane_y cam) * spr_x + plane_x cam * spr_y) in
    if Qle_bool trans_y 0 then Ok None
    else
      r <- py_div trans_x trans_y ;;
      let sprite_screen_x := py_int ((inject_Z WIDTH / 2) * (1 + r)) in
      q <- py_div (inject_Z HEIGHT) trans_y ;;
      let sprite_h := Z.abs (py_int q) in
      let sprite_w := sprite_h in
      let v_shift :=
        py_int ((0.5 - Enemy.height_param e) * inject_Z sprite_h) in
      let draw_start_y := Z.max 0 ((- sprite_h) / 2 + HALF_H + v_shift) in
      let draw_end_y := Z.min (HEIGHT - 1) (draw_start_y + sprite_h) in
      let draw_start_x := ((- sprite_w) / 2 + sprite_screen_x)%Z in
      let draw_end_x := (draw_start_x + sprite_w)%Z in
      if ((draw_end_x <? 0) || (WIDTH <=? draw_start_x))%Z then Ok None
      else
        let draw_start_x := Z.max 0 draw_start_x in
        let draw_end_x := Z.min (WIDTH - 1) draw_end_x in
        let depth := clamp01 (trans_y / FAR_PLANE) in
        Ok (Some (Sprites.mkQuad trans_x trans_y sprite_screen_x sprite_h
                                 draw_start_x draw_end_x draw_start_y
                                 draw_end_y depth)).

(** One iteration of [for box in ammo_boxes]: the sprite is half as high. *)
Definition project_ammo_box (cam : camera) (box : AmmoBox.t)
  : res (option Sprites.quad) :=
  if negb (AmmoBox.alive box) then Ok None
  else
    let spr_x := AmmoBox.x box - player_x cam in
    let spr_y := AmmoBox.y box - player_y cam in
    inv_det <- py_div 1 (plane_x cam * dir_y cam - dir_x cam * plane_y cam
                         + 1e-9) ;;
    let trans_x := inv_det * (dir_y cam * spr_x - dir_x cam * spr_y) in
    let trans_y := inv_det * ((- plane_y cam) * spr_x + plane_x cam * spr_y) in
    if Qle_bool trans_y 0 then Ok None
    else
      r <- py_div trans_x trans_y ;;
      let sprite_screen_x := py_int ((inject_Z WIDTH / 2) * (1 + r)) in
      q <- py_div (inject_Z HEIGHT) trans_y ;;
      let sprite_h := Z.abs (py_int (q * 0.5)) in
      let sprite_w := sprite_h in
      let v_shift :=
        py_int ((0.5 - AmmoBox.height_param box) * inject_Z sprite_h) in
      let draw_start_y := Z.max 0 ((- sprite_h) / 2 + HALF_H + v_shift) in
      let draw_end_y := Z.min (HEIGHT - 1) (draw_start_y + sprite_h) in
      let draw_start_x := ((- sprite_w) / 2 + sprite_screen_x)%Z in
      let draw_end_x := (draw_start_x + sprite_w)%Z in
      if ((draw_end_x <? 0) || (WIDTH <=? draw_start_x))%Z then Ok None
      else
        let draw_start_x := Z.max 0 draw_start_x in
        let draw_end_x := Z.min (WIDTH - 1) draw_end_x in
        let depth := clamp01 (trans_y / FAR_PLANE) in
        Ok (Some (Sprites.mkQuad trans_x trans_y sprite_screen_x sprite_h
                                 draw_start_x draw_end_x draw_start_y
                                 draw_end_y depth)).

(** The loop shared by the three builders: one optional quad per entity. *)
Fixpoint collect {A : Type} (f : A -> res (option Sprites.quad))
         (l : list A) : res (list Sprites.quad) :=
  match l with
  | [] => Ok []
  | a :: l' =>
      q <- f a ;;
      rest <- collect f l' ;;
      Ok (match q with Some v => v :: rest | None => rest end)
  end.

Definition build_enemies_batch (cam : camera) (enemies : list Enemy.t)
  : res (list Sprites.quad) :=
  collect (project_enemy cam) enemies.

Definition build_ammo_boxes_batch (cam : camera) (boxes : list AmmoBox.t)
  : res (list Sprites.quad) :=
  collect (project_ammo_box cam) boxes.

End Billboards.

(** ** Player: [try_move], [handle_input], firing,
       [find_random_valid_position] *)

Module Player.

Definition MOVE_SPEED : Q := 3.
Definition ROT_SPEED : Q := 2.
Definition STRAFE_SPEED : Q := 2.5.

(** Both tests read the position before the move. *)
Definition try_move (m : grid) (cam : camera) (nx ny : Q) : res (Q * Q) :=
  wx <- is_wall m (py_int nx) (py_int (player_y cam)) ;;
  let x := if negb wx then nx else player_x cam in
  wy <- is_wall m (py_int (player_x cam)) (py_int ny) ;;
  let y := if negb wy then ny else player_y cam in
  Ok (x, y).

Definition set_pos (cam : camera) (p : Q * Q) : camera :=
  mkCamera (fst p) (snd p) (dir_x cam) (dir_y cam) (plane_x cam) (plane_y cam).

(** The held keys [handle_input] reads. *)
Record keys : Type := mkKeys {
  K_LEFT : bool;
  K_q : bool;
  K_RIGHT : bool;
  K_e : bool;
  K_w : bool;
  K_UP : bool;
  K_s : bool;
  K_DOWN : bool;
  K_a : bool;
  K_d : bool
}.

Section WithTrig.
(** [math.cos], [math.sin]. *)
Variables cos sin : Q -> Q.

Definition handle_input (m : grid) (k : keys) (dt : Q) (cam : camera)
  : res camera :=
  let rot := 0 in
  let rot := if K_LEFT k || K_q k then rot - ROT_SPEED * dt else rot in
  let rot := if K_RIGHT k || K_e k then rot + ROT_SPEED * dt else rot in
  let cam1 :=
    if Qneqb rot 0 then
      let cosr := cos rot in
      let sinr := sin rot in
      let ndx := dir_x cam * cosr - dir_y cam * sinr in
      let ndy := dir_x cam * sinr + dir_y cam * cosr in
      let npx := plane_x cam * cosr - plane_y cam * sinr in
      let npy := plane_x cam * sinr + plane_y cam * cosr in
      mkCamera (player_x cam) (player_y cam) ndx ndy npx npy
    else cam in
  let forward := 0 in
  let forward := if K_w k || K_UP k then forward + MOVE_SPEED * dt
                 else forward in
  let forward := if K_s k || K_DOWN k then forward - MOVE_SPEED * dt
                 else forward in
  cam2 <- (if Qneqb forward 0 then
             let nx := player_x cam1 + dir_x cam1 * forward in
             let ny := player_y cam1 + dir_y cam1 * forward in
             p <- try_move m cam1 nx ny ;; Ok (set_pos cam1 p)
           else Ok cam1) ;;
  let strafe := 0 in
  let strafe := if K_a k then strafe - STRAFE_SPEED * dt else strafe in
  let strafe := if K_d k then strafe + STRAFE_SPEED * dt else strafe in
  if Qneqb strafe 0 then
    let nx := player_x cam2 + (- dir_y cam2) * strafe in
    let ny := player_y cam2 + dir_x cam2 * strafe in
    p <- try_move m cam2 nx ny ;; Ok (set_pos cam2 p)
  else Ok cam2.
End WithTrig.

(** The body of the [K_SPACE] and mouse-button branches of the event loop.
    The boolean tells whether a shot left ([firing = True]). *)
Definition fire (cam : camera) (st : Frame.state) : Frame.state * bool :=
  if (0 <? Frame.player_ammo st)%Z then
    let bx := player_x cam + dir_x cam * 0.4 in
    let by' := player_y cam + dir_y cam * 0.4 in
    let bvx := dir_x cam * 10 in
    let bvy := dir_y cam * 10 in
    (Frame.mk (Frame.bullets st ++ [Bullet.init bx by' bvx bvy])
              (Frame.enemies st) (Frame.ammo_boxes st)
              (Frame.player_ammo st - 1) (Frame.ammo_box_spawn_timer st),
     true)
  else (st, false).

Section WithMath.
Variable hypot : Q -> Q -> Q.

(** [while True: ...] over the successive pairs
    [(random.uniform(...), random.uniform(...))]; [None] when the given
    draws run out before a valid one comes. *)
Fixpoint find_random_valid_position (m : grid) (draws : list (Q * Q))
  : option (res (Q * Q)) :=
  match draws with
  | [] => None
  | (x, y) :: rest =>
      match is_wall m (py_int x) (py_int y) with
      | Raise e => Some (Raise e)
      | Ok w =>
          if negb w then
            let dx := x - 3.5 in
            let dy := y - 10.5 in
            let dist := hypot dx dy in
            if Qltb 3 dist then Some (Ok (x, y))
            else find_random_valid_position m rest
          else find_random_valid_position m rest
      end
  end.
End WithMath.

End Player.

(** ** The frame loop of [main] *)

Module Main.

(** The events the loop distinguishes. *)
Inductive event : Set :=
| QUIT
| KEYDOWN_TAB
| KEYDOWN_ESCAPE
| KEYDOWN_SPACE
| KEYDOWN_other
| MOUSEBUTTONDOWN_1
| other_event.

(** The globals and the locals of [main] that live across iterations. *)
Record world : Type := mk {
  cam : camera;
  wave_manager : WaveManager.t;
  frame : Frame.state;
  running : bool;
  firing : bool;
  recoil_t : Q
}.

(** What one iteration takes from outside: the clock, the event queue, the
    held keys and the random positions. *)
Record input : Type := mkInput {
  dt : Q;
  events : list event;
  held : Player.keys;
  now : Q;
  enemy_pos : nat -> Q * Q;
  box_pos : Q * Q
}.

Definition stop (w : world) : world :=
  mk (cam w) (wave_manager w) (frame w) false (firing w) (recoil_t w).

Definition shoot (w : world) : world :=
  let (st, fired) := Player.fire (cam w) (frame w) in
  if fired then mk (cam w) (wave_manager w) st (running w) true 0 else w.

Definition handle_event (w : world) (ev : event) : world :=
  match ev with
  | QUIT => stop w
  | KEYDOWN_ESCAPE => stop w
  | KEYDOWN_SPACE => shoot w
  | MOUSEBUTTONDOWN_1 => shoot w
  | KEYDOWN_TAB => w
  | KEYDOWN_other => w
  | other_event => w
  end.

Section WithMath.
Variable hypot : Q -> Q -> Q.
Variables cos sin : Q -> Q.
Variable m : grid.

(** One iteration of [while running], rendering left out. *)
Definition tick (i : input) (w : world) : res world :=
  let w1 := fold_left handle_event (events i) w in
  cam1 <- Player.handle_input cos sin m (held i) (dt i) (cam w1) ;;
  let wm1 := WaveManager.update (now i) (wave_manager w1) (dt i)
                                (Frame.enemies (frame w1)) in
  let (wm2, enemies2) :=
    WaveManager.spawn_enemies (enemy_pos i) wm1 (Frame.enemies (frame w1)) in
  let st2 := Frame.mk (Frame.bullets (frame w1)) enemies2
                      (Frame.ammo_boxes (frame w1))
                      (Frame.player_ammo (frame w1))
                      (Frame.ammo_box_spawn_timer (frame w1)) in
  st3 <- Frame.simulate hypot m cam1 (dt i) (box_pos i) st2 ;;
  let '(firing1, recoil1) :=
    if firing w1 then
      let r := recoil_t w1 + dt i in
      (if Qltb 0.15 r then false else true, r)
    else (false, recoil_t w1) in
  Ok (mk cam1 wm2 st3 (running w1) firing1 recoil1).

(** [while running: ...] over the inputs of the successive iterations. *)
Fixpoint run (inputs : list input) (w : world) : res world :=
  match inputs with
  | [] => Ok w
  | i :: rest =>
      if running w then w1 <- tick i w ;; run rest w1 else Ok w
  end.
End WithMath.

(** The state [main] builds before the loop; [plane_len] is
    [PLANE_LEN = math.tan(FOV / 2)] and [box] is the position of the first
    ammo box. *)
Definition initial (plane_len : Q) (box : Q * Q) : world :=
  mk (mkCamera 3.5 10.5 1 0 0 plane_len)
     WaveManager.init
     (Frame.mk [] [] [AmmoBox.init (fst box) (snd box)] 20 0)
     true false 0.

End Main.

(** ** Vocabulary of the properties *)

(** A grid map is a rectangular table: every row is as long as the first. *)
Definition rectangular (m : grid) : bool :=
  forallb (fun row => (Z.of_nat (length row) =? MAP_W m)%Z) m.

Definition on_border (m : grid) (ix iy : Z) : bool :=
  ((ix =? 0) || (ix =? MAP_W m - 1) || (iy =? 0) || (iy =? MAP_H m - 1))%Z.

Definition range (n : Z) : list Z := map Z.of_nat (seq 0 (Z.to_nat n)).

Definition cell_positive (m : grid) (ix iy : Z) : bool :=
  match cell m ix iy with
  | Ok v => (0 <? v)%Z
  | Raise _ => false
  end.

(** Every border cell holds a wall. *)
Definition border_nonzero (m : grid) : bool :=
  forallb (fun iy =>
    forallb (fun ix => implb (on_border m ix iy) (cell_positive m ix iy))
            (range (MAP_W m)))
    (range (MAP_H m)).

(** The camera stands in a cell of the map that is not a border cell. *)
Definition strictly_inside (m : grid) (cam : camera) : bool :=
  let cx := py_int (player_x cam) in
  let cy := py_int (player_y cam) in
  in_map m cx cy && negb (on_border m cx cy).

(** Iterations that always suffice for the DDA loop. *)
Definition enough_fuel (m : grid) : nat := S (Z.to_nat (MAP_W m + MAP_H m)).

(** Steps left along one axis before a walk in direction [step] leaves
    [0, size). *)
Definition remaining (size step pos : Z) : Z :=
  if (step =? 1)%Z then (size - pos)%Z else (pos + 1)%Z.

(** The variant of the DDA loop. *)
Definition steps_left (m : grid) (step_x step_y : Z) (s : Raycaster.dda) : Z :=
  (remaining (MAP_W m) step_x (Raycaster.map_x s)
   + remaining (MAP_H m) step_y (Raycaster.map_y s))%Z.

Definition unit_step (step : Z) : Prop := step = 1%Z \/ step = (-1)%Z.

(** The 5x5 map of the scenarios: border of material [b], empty interior. *)
Definition border_map5 (b : Z) : grid :=
  [ [b; b; b; b; b];
    [b; 0; 0; 0; b];
    [b; 0; 0; 0; b];
    [b; 0; 0; 0; b];
    [b; b; b; b; b] ]%Z.

Definition frac (q : Q) : Q := q - inject_Z (Qfloor q).

(** Where the ray meets the wall face, before the fractional part is taken. *)
Definition hit_position (cam : camera) (r : Raycaster.ray)
           (h : Raycaster.wall_hit) : Q :=
  if (Raycaster.hit_side h =? 0)%Z
  then player_y cam + Raycaster.perp_wall_dist h * Raycaster.ray_dir_y r
  else player_x cam + Raycaster.perp_wall_dist h * Raycaster.ray_dir_x r.

Definition flipped (r : Raycaster.ray) (h : Raycaster.wall_hit) : bool :=
  ((Raycaster.hit_side h =? 0)%Z && Qltb 0 (Raycaster.ray_dir_x r))
  || ((Raycaster.hit_side h =? 1)%Z && Qltb (Raycaster.ray_dir_y r) 0).

(** The point that lies [a] view directions ahead of the player and [b]
    plane vectors to its side: [a] is the forward (along-view) distance of
    the point, in units of the view direction. *)
Definition camera_point (cam : camera) (a b : Q) : Q * Q :=
  (player_x cam + a * dir_x cam + b * plane_x cam,
   player_y cam + a * dir_y cam + b * plane_y cam).

(** The billboard stands at the point [p]. *)
Definition stands_at (bl : Bullet.t) (p : Q * Q) : Prop :=
  Bullet.x bl == fst p /\ Bullet.y bl == snd p.

(** The determinant of the camera basis, without the projector's offset. *)
Definition camera_det (cam : camera) : Q :=
  plane_x cam * dir_y cam - dir_x cam * plane_y cam.

(** The factor between the forward distance of a point and the [trans_y]
    the projector computes for it: the projector divides by the determinant
    plus 1e-9, not by the determinant. *)
Definition offset_scale (cam : camera) : Q :=
  camera_det cam / (camera_det cam + 1e-9).

(** The lateral screen coordinate of column [x], in [-1, 1). *)
Definition camera_x_of (x : Z) : Q := 2 * inject_Z x / inject_Z WIDTH - 1.

(** The point of the ray of column [x] at forward distance
    [perp_wall_dist]. *)
Definition wall_point (cam : camera) (x : Z) (h : Raycaster.wall_hit)
  : Q * Q :=
  camera_point cam (Raycaster.perp_wall_dist h)
               (Raycaster.perp_wall_dist h * camera_x_of x).

(** That point lies on the face of the hit cell through which the ray
    entered it: the west or north face when the ray steps forward along the
    axis, the east or south face when it steps backward. *)
Definition on_face (cam : camera) (x : Z) (h : Raycaster.wall_hit) : Prop :=
  let r := Raycaster.setup cam x in
  if (Raycaster.hit_side h =? 0)%Z then
    ~ Raycaster.ray_dir_x r == 0 ->
    fst (wall_point cam x h)
    == inject_Z (Raycaster.hit_map_x h)
       + inject_Z (1 - Raycaster.step_x r) / 2
  else
    ~ Raycaster.ray_dir_y r == 0 ->
    snd (wall_point cam x h)
    == inject_Z (Raycaster.hit_map_y h)
       + inject_Z (1 - Raycaster.step_y r) / 2.

(** A tick of the scenarios: the player at the start position, one bullet in
    flight next to one enemy of health 1, no ammo box. *)
Definition start_camera : camera := mkCamera 3.5 10.5 1 0 0 0.66.

Definition hit_scene : Frame.state :=
  Frame.mk [Bullet.init 5 10.5 10 0] [Enemy.init 5.2 10.5 1 1] [] 19 0.

(** A rational stand-in for [math.hypot] where a closed term is needed. *)
Definition norm1 (dx dy : Q) : Q := Qabs dx + Qabs dy.

(** The per-wave tuning as the design document words it. *)
Definition spec_enemy_count (w : Z) : Z := (3 + (w - 1) * 2)%Z.
Definition spec_enemy_health (w : Z) : Z :=
  (1 + Qfloor (inject_Z (w - 1) / 3))%Z.
Definition spec_speed_multiplier (w : Z) : Q :=
  1 + Qmin 1 (inject_Z (w - 1) * 0.1).

(** The manager with its spawn counter set to [k]. *)
Definition wave_with_spawned (wm : WaveManager.t) (k : Z) : WaveManager.t :=
  WaveManager.mk (WaveManager.current_wave wm) k
                 (WaveManager.wave_in_progress wm)
                 (WaveManager.between_waves wm)
                 (WaveManager.wave_start_time wm)
                 (WaveManager.wave_countdown wm)
                 (WaveManager.countdown_duration wm).

(** The enemy a wave places at the [j]-th random position. *)
Definition spawned_at (pos : nat -> Q * Q) (wm : WaveManager.t) (j : nat)
  : Enemy.t :=
  Enemy.init (fst (pos j)) (snd (pos j))
             (WaveManager.get_enemy_health wm)
             (WaveManager.get_enemy_speed_multiplier wm).

(** The cell under the point [(x, y)] is not a wall. *)
Definition free (m : grid) (x y : Q) : Prop :=
  is_wall m (py_int x) (py_int y) = Ok false.

(** The test of the combat loop: the enemy is alive and the bullet lies in
    its circle. *)
Definition hittable (b : Bullet.t) (e : Enemy.t) : bool :=
  Enemy.alive e
  && Qle_bool ((Enemy.x e - Bullet.x b) * (Enemy.x e - Bullet.x b)
               + (Enemy.y e - Bullet.y b) * (Enemy.y e - Bullet.y b))
              (Enemy.radius e * Enemy.radius e).

Definition total_health (es : list Enemy.t) : Z :=
  fold_right (fun e acc => (Enemy.health e + acc)%Z) 0%Z es.

Definition dead_bullets (bs : list Bullet.t) : Z :=
  Z.of_nat (length (filter (fun b => negb (Bullet.alive b)) bs)).

(** The pickup test: the box is alive and the player is within its pickup
    distance, the boundary included. *)
Definition in_reach (hypot : Q -> Q -> Q) (cam : camera) (box : AmmoBox.t)
  : bool :=
  AmmoBox.alive box
  && Qle_bool (hypot (player_x cam - AmmoBox.x box)
                     (player_y cam - AmmoBox.y box))
              (AmmoBox.pickup_distance box).

Definition picked (box : AmmoBox.t) : AmmoBox.t :=
  AmmoBox.mk (AmmoBox.x box) (AmmoBox.y box) false (AmmoBox.radius box)
             (AmmoBox.height_param box) (AmmoBox.pickup_distance box).

(** [n] fire events in a row. *)
Definition shots (n : nat) (cam : camera) (st : Frame.state) : Frame.state :=
  Nat.iter n (fun s => fst (Player.fire cam s)) st.

(** The bullet a shot creates: 0.4 ahead of the player, 10 units per second
    along the view direction. *)
Definition muzzle_bullet (cam : camera) : Bullet.t :=
  Bullet.init (player_x cam + dir_x cam * 0.4)
              (player_y cam + dir_y cam * 0.4)
              (dir_x cam * 10) (dir_y cam * 10).

Definition is_quit (ev : Main.event) : bool :=
  match ev with
  | Main.QUIT => true
  | Main.KEYDOWN_ESCAPE => true
  | _ => false
  end.

Definition is_fire (ev : Main.event) : bool :=
  match ev with
  | Main.KEYDOWN_SPACE => true
  | Main.MOUSEBUTTONDOWN_1 => true
  | _ => false
  end.

Definition ammo_of (w : Main.world) : Z := Frame.player_ammo (Main.frame w).
Definition wave_of (w : Main.world) : Z :=
  WaveManager.current_wave (Main.wave_manager w).




(** A bullet-shaped stand-in for any billboard at [(x, y)] with height
    parameter [hp]. *)
Definition as_bullet (x y hp : Q) : Bullet.t := Bullet.mk x y 0 0 true 0 hp.

(** The determinant the projector inverts, with its offset. *)
Definition basis_det (cam : camera) : Q :=
  plane_x cam * dir_y cam - dir_x cam * plane_y cam + 1e-9.

(** A draw of [find_random_valid_position] that the loop accepts. *)
Definition acceptable (hypot : Q -> Q -> Q) (m : grid) (p : Q * Q) : Prop :=
  free m (fst p) (snd p) /\ 3 < hypot (fst p - 3.5) (snd p - 10.5).

(** A magnitude far inside the range of doubles.  Sums and products of
    two such values are finite doubles, so [int()] of them cannot raise
    [OverflowError], which the exact arithmetic of this embedding does not
    show. *)
Definition moderate (q : Q) : Prop := Qabs q <= 1e100.

(** The quads a bullet contributes to the batch: one if it is drawn, none
    if it is skipped. *)
Definition drawn (cam : camera) (b : Bullet.t) : list Sprites.quad :=
  match Sprites.project cam b with
  | Ok (Some q) => [q]
  | _ => []
  end.

(** * Properties *)

(** ** Comparisons *)

Lemma Qltb_lt (a b : Q) : Qltb a b = true <-> a < b.
Proof.
  unfold Qltb. rewrite negb_true_iff.
  split; intro H.
  - apply Qnot_le_lt. intro Hle. apply Qle_bool_iff in Hle. congruence.
  - destruct (Qle_bool b a) eqn:E; [|reflexivity].
    apply Qle_bool_iff in E. exfalso. apply (Qlt_not_le _ _ H E).
Qed.

Lemma Qltb_ge (a b : Q) : Qltb a b = false <-> b <= a.
Proof.
  unfold Qltb. rewrite negb_false_iff. apply Qle_bool_iff.
Qed.

Lemma py_min_spec (a b : Q) : py_min a b == Qmin a b.
Proof.
  unfold py_min. destruct (Qltb b a) eqn:E.
  - apply Qltb_lt in E. symmetry. apply Q.min_r. apply Qlt_le_weak, E.
  - apply Qltb_ge in E. symmetry. apply Q.min_l. exact E.
Qed.

Lemma py_min_le_l (a b : Q) : py_min a b <= a.
Proof. rewrite py_min_spec. apply Q.le_min_l. Qed.

Lemma py_min_glb (a b c : Q) : c <= a -> c <= b -> c <= py_min a b.
Proof. intros. rewrite py_min_spec. apply Q.min_glb; assumption. Qed.

(** ** Enemy.take_damage *)

(** C5. For an enemy of health [h > 0] and any amount [a], [take_damage]
    lowers the health by exactly [a] and touches no other field than
    [alive]; it returns [True] and leaves the enemy not alive exactly when
    [h - a <= 0]; damage equal to [h] kills, damage below [h] returns [False]
    and keeps the [alive] flag. *)
Theorem take_damage_spec (e : Enemy.t) (a : Z) :
  (0 < Enemy.health e)%Z ->
  let e' := fst (Enemy.take_damage e a) in
  let r := snd (Enemy.take_damage e a) in
  Enemy.health e' = (Enemy.health e - a)%Z
  /\ ((r = true /\ Enemy.alive e' = false) <-> (Enemy.health e - a <= 0)%Z)
  /\ (a = Enemy.health e -> r = true /\ Enemy.alive e' = false)
  /\ ((a < Enemy.health e)%Z ->
      r = false /\ Enemy.alive e' = Enemy.alive e)
  /\ Enemy.set_pos e' (Enemy.x e) (Enemy.y e)
     = Enemy.mk (Enemy.x e) (Enemy.y e) (Enemy.alive e') (Enemy.radius e)
                (Enemy.base_speed e) (Enemy.speed e) (Enemy.height_param e)
                (Enemy.health e - a).
Proof.
  intros Hh. unfold Enemy.take_damage. cbv zeta.
  destruct (Z.leb_spec (Enemy.health e - a) 0) as [Hle | Hgt]; cbn.
  - repeat split; auto; intros; lia.
  - repeat split; auto; try lia.
Qed.

Lemma take_damage_spec_witness :
  let e := Enemy.init 5.2 10.5 2 1 in
  (0 < Enemy.health e)%Z
  /\ Enemy.health (fst (Enemy.take_damage e 2)) = 0%Z
  /\ snd (Enemy.take_damage e 2) = true
  /\ Enemy.alive (fst (Enemy.take_damage e 2)) = false
  /\ snd (Enemy.take_damage e 1) = false
  /\ Enemy.alive (fst (Enemy.take_damage e 1)) = true.
Proof.
  intro e.
  assert (H : (0 < Enemy.health e)%Z) by reflexivity.
  destruct (take_damage_spec e 2 H) as (H1 & _ & H3 & _).
  destruct (take_damage_spec e 1 H) as (_ & _ & _ & H4 & _).
  destruct (H3 eq_refl) as [Hr Ha].
  destruct (H4 eq_refl) as [Hr' Ha'].
  repeat split; assumption.
Defined.

(** ** Bullet.update *)

Lemma bullet_update_alive (m : grid) (b : Bullet.t) (dt : Q) :
  Bullet.alive b = true ->
  Bullet.update m b dt =
  (w <- is_wall m (py_int (Bullet.x b + Bullet.vx b * dt))
                  (py_int (Bullet.y b + Bullet.vy b * dt)) ;;
   if w then Ok (Frame.consume b)
   else Ok (Bullet.mk (Bullet.x b + Bullet.vx b * dt)
                      (Bullet.y b + Bullet.vy b * dt)
                      (Bullet.vx b) (Bullet.vy b) true
                      (Bullet.age b + dt)
                      (py_min 0.65 (Bullet.height_param b + 0.35 * dt)))).
Proof.
  intros Ha. unfold Bullet.update, Frame.consume. rewrite Ha. reflexivity.
Qed.

(** C6. An alive bullet whose destination cell is a wall only loses its
    [alive] flag: position, velocity, age and height parameter stay as they
    were.  Otherwise it moves exactly to [(x + vx*dt, y + vy*dt)], ages by
    [dt], and its height parameter becomes [min(0.65, h + 0.35*dt)], which
    never exceeds the cap and never falls when [dt >= 0] and [h <= 0.65].
    The bullet at (2.5, 2.5) with velocity (10, 0) and [dt = 0.2] aims at
    cell (4, 2); when that is a wall the bullet dies where it stands. *)
Theorem bullet_update_spec (m : grid) (b : Bullet.t) (dt : Q) :
  Bullet.alive b = true ->
  let nx := Bullet.x b + Bullet.vx b * dt in
  let ny := Bullet.y b + Bullet.vy b * dt in
  (is_wall m (py_int nx) (py_int ny) = Ok true ->
   Bullet.update m b dt =
   Ok (Bullet.mk (Bullet.x b) (Bullet.y b) (Bullet.vx b) (Bullet.vy b) false
                 (Bullet.age b) (Bullet.height_param b)))
  /\ (is_wall m (py_int nx) (py_int ny) = Ok false ->
      exists b',
        Bullet.update m b dt = Ok b'
        /\ Bullet.x b' = nx /\ Bullet.y b' = ny
        /\ Bullet.vx b' = Bullet.vx b /\ Bullet.vy b' = Bullet.vy b
        /\ Bullet.alive b' = true
        /\ Bullet.age b' = Bullet.age b + dt
        /\ Bullet.height_param b'
           = py_min 0.65 (Bullet.height_param b + 0.35 * dt)
        /\ Bullet.height_param b' <= 0.65
        /\ (0 <= dt -> Bullet.height_param b <= 0.65 ->
            Bullet.height_param b <= Bullet.height_param b'))
  /\ (b = Bullet.init 2.5 2.5 10 0 -> dt = 0.2 ->
      is_wall m 4 2 = Ok true ->
      exists b',
        Bullet.update m b dt = Ok b'
        /\ Bullet.alive b' = false
        /\ Bullet.x b' = 2.5 /\ Bullet.y b' = 2.5
        /\ Bullet.x b' < 4).
Proof.
  intros Ha nx ny. rewrite (bullet_update_alive m b dt Ha).
  fold nx ny. repeat split.
  - intros Hw. rewrite Hw. reflexivity.
  - intros Hw. rewrite Hw. cbn.
    eexists. split; [reflexivity|]. cbn.
    repeat split; try reflexivity.
    + apply py_min_le_l.
    + intros Hdt Hh. apply py_min_glb; [exact Hh|].
      assert (0 <= 0.35 * dt) by (apply Qmult_le_0_compat; [discriminate|exact Hdt]).
      lra.
  - intros Hb Hdt Hw. subst b dt.
    change (py_int nx) with 4%Z. change (py_int ny) with 2%Z.
    rewrite Hw. cbn.
    eexists. split; [reflexivity|]. cbn.
    repeat split; reflexivity.
Qed.

Lemma bullet_update_spec_witness :
  let m := border_map5 1 in
  let b := Bullet.init 2.5 2.5 10 0 in
  Bullet.alive b = true
  /\ is_wall m 4 2 = Ok true
  /\ exists b',
       Bullet.update m b 0.2 = Ok b'
       /\ Bullet.alive b' = false
       /\ Bullet.x b' = 2.5 /\ Bullet.y b' = 2.5
       /\ Bullet.x b' < 4.
Proof.
  intros m b.
  split; [reflexivity|]. split; [reflexivity|].
  destruct (bullet_update_spec m b 0.2 eq_refl) as (_ & _ & H).
  apply H; reflexivity.
Defined.

(** ** Stepping a dead entity *)

(** C10. [update] on a bullet, an enemy or an ammo box whose [alive] flag is
    [False] returns at once: the entity is returned as it was, no exception
    is raised, and [player_ammo] keeps its value. *)
Theorem dead_entity_update_noop :
  (forall (m : grid) (b : Bullet.t) (dt : Q),
      Bullet.alive b = false -> Bullet.update m b dt = Ok b)
  /\ (forall (hypot : Q -> Q -> Q) (m : grid) (cam : camera)
             (e : Enemy.t) (dt : Q),
         Enemy.alive e = false -> Enemy.update hypot m cam e dt = Ok e)
  /\ (forall (hypot : Q -> Q -> Q) (cam : camera) (ammo : Z)
             (box : AmmoBox.t) (dt : Q),
         AmmoBox.alive box = false ->
         AmmoBox.update hypot cam ammo box dt = (box, ammo)).
Proof.
  repeat split; intros.
  - unfold Bullet.update. rewrite H. reflexivity.
  - unfold Enemy.update. rewrite H. reflexivity.
  - unfold AmmoBox.update. rewrite H. reflexivity.
Qed.

Lemma dead_entity_update_noop_witness :
  let b := Frame.consume (Bullet.init 2.5 2.5 10 0) in
  let e := fst (Enemy.take_damage (Enemy.init 5.2 10.5 1 1) 1) in
  let box := AmmoBox.mk 4.5 10.5 false 0.35 0.3 0.8 in
  let cam := mkCamera 3.5 10.5 1 0 0 0.66 in
  let hypot := norm1 in
  Bullet.update MAP b 0.2 = Ok b
  /\ Enemy.update hypot MAP cam e 0.2 = Ok e
  /\ AmmoBox.update hypot cam 7 box 0.2 = (box, 7%Z).
Proof.
  intros b e box cam hypot.
  destruct dead_entity_update_noop as (Hb & He & Hx).
  split; [apply Hb; reflexivity|].
  split; [apply He; reflexivity|].
  apply Hx; reflexivity.
Defined.

(** ** Wave tuning *)

Lemma floor_div3 (n : Z) : (n / 3)%Z = Qfloor (inject_Z n / 3).
Proof. exact (Zdiv_Qdiv n 3). Qed.

(** C9. For a wave manager whose wave number is [w >= 1] the three getters
    depend on [w] alone: the enemy count is [3 + (w-1)*2], the enemy health
    is [1 + floor((w-1)/3)] and the speed multiplier is
    [1 + min(1, (w-1)*0.1)]. *)
Theorem wave_tuning_spec (wm : WaveManager.t) (w : Z) :
  WaveManager.current_wave wm = w ->
  (1 <= w)%Z ->
  WaveManager.get_enemies_for_wave wm = spec_enemy_count w
  /\ WaveManager.get_enemy_health wm = spec_enemy_health w
  /\ WaveManager.get_enemy_speed_multiplier wm == spec_speed_multiplier w.
Proof.
  intros Hw _.
  unfold WaveManager.get_enemies_for_wave, WaveManager.get_enemy_health,
    WaveManager.get_enemy_speed_multiplier, spec_enemy_count,
    spec_enemy_health, spec_speed_multiplier.
  rewrite Hw. repeat split.
  - rewrite floor_div3. reflexivity.
  - rewrite py_min_spec. reflexivity.
Qed.

Lemma wave_tuning_spec_witness :
  let wm := WaveManager.mk 4 0 true false 0 0 5 in
  (1 <= 4)%Z
  /\ WaveManager.get_enemies_for_wave wm = 9%Z
  /\ WaveManager.get_enemy_health wm = 2%Z
  /\ WaveManager.get_enemy_speed_multiplier wm == 1.3.
Proof.
  intro wm.
  assert (H1 : (1 <= 4)%Z) by lia.
  destruct (wave_tuning_spec wm 4 eq_refl H1) as (Hc & Hh & Hs).
  split; [exact H1|].
  split; [exact Hc|].
  split; [exact Hh|].
  rewrite Hs. reflexivity.
Defined.

(** ** Depth encoding *)

Lemma clamp01_mono (a b : Q) : a <= b -> clamp01 a <= clamp01 b.
Proof.
  intros Hab. unfold clamp01.
  destruct (Qltb a 0) eqn:Ea0; destruct (Qltb b 0) eqn:Eb0;
    destruct (Qltb 1 a) eqn:Ea1; destruct (Qltb 1 b) eqn:Eb1;
    rewrite ?Qltb_lt, ?Qltb_ge in *; lra.
Qed.

Lemma clamp01_compat (a b : Q) : a == b -> clamp01 a == clamp01 b.
Proof.
  intros Hab. apply Qle_antisym; apply clamp01_mono; lra.
Qed.

Lemma clamp01_range (a : Q) : 0 <= clamp01 a <= 1.
Proof.
  unfold clamp01.
  destruct (Qltb a 0) eqn:E0; destruct (Qltb 1 a) eqn:E1;
    rewrite ?Qltb_lt, ?Qltb_ge in *; lra.
Qed.

Lemma over_far_plane_mono (a b : Q) :
  a <= b -> a / FAR_PLANE <= b / FAR_PLANE.
Proof.
  intros Hab. unfold FAR_PLANE, Qdiv.
  apply Qmult_le_compat_r; [exact Hab|discriminate].
Qed.

Lemma cast_column_inv (fuel : nat) (m : grid) (cam : camera) (x : Z)
      (h : Raycaster.wall_hit) :
  Raycaster.cast_column fuel m cam x = Some (Ok h) ->
  exists s,
    Raycaster.walk fuel m cam x = Some (Ok s)
    /\ Raycaster.finish cam (Raycaster.setup cam x) s = Ok h.
Proof.
  unfold Raycaster.cast_column.
  destruct (Raycaster.walk fuel m cam x) as [[s | e] |]; intros H.
  - exists s. split; [reflexivity|]. congruence.
  - discriminate H.
  - discriminate H.
Qed.

Lemma finish_inv (cam : camera) (r : Raycaster.ray) (s : Raycaster.dda)
      (h : Raycaster.wall_hit) :
  Raycaster.finish cam r s = Ok h ->
  Raycaster.perp_wall_dist h = fst (Raycaster.hit_distance cam r s)
  /\ Raycaster.hit_side h = Raycaster.side s
  /\ Raycaster.hit_tex_id h = Raycaster.tex_id s
  /\ Raycaster.hit_map_x h = Raycaster.map_x s
  /\ Raycaster.hit_map_y h = Raycaster.map_y s
  /\ Raycaster.depth h
     = clamp01 (Raycaster.perp_wall_dist h / FAR_PLANE)
  /\ Raycaster.u h
     = if flipped r h then 1 - frac (hit_position cam r h)
       else frac (hit_position cam r h).
Proof.
  unfold Raycaster.finish, Raycaster.hit_distance, flipped, hit_position.
  destruct (Raycaster.side s =? 0)%Z eqn:Es;
    (match goal with
     | |- context [py_div ?a ?b] => destruct (py_div a b) as [q | e]
     end; cbn; intros H; [|discriminate H];
     injection H as <-; cbn; rewrite Es; cbn;
     repeat split; reflexivity).
Qed.

Lemma finish_ok (cam : camera) (r : Raycaster.ray) (s : Raycaster.dda) :
  Qeq_bool (fst (Raycaster.hit_distance cam r s) + 1e-6) 0 = false ->
  exists h, Raycaster.finish cam r s = Ok h.
Proof.
  unfold Raycaster.finish, py_div.
  destruct (Raycaster.hit_distance cam r s) as [p wx]. cbn [fst].
  intros ->. cbn. eexists. reflexivity.
Qed.

Lemma project_inv (cam : camera) (b : Bullet.t) (q : Sprites.quad) :
  Sprites.project cam b = Ok (Some q) ->
  exists inv_det,
    py_div 1 (plane_x cam * dir_y cam - dir_x cam * plane_y cam + 1e-9)
    = Ok inv_det
    /\ Sprites.trans_y q
       = inv_det * ((- plane_y cam) * (Bullet.x b - player_x cam)
                    + plane_x cam * (Bullet.y b - player_y cam))
    /\ 0 < Sprites.trans_y q
    /\ Sprites.depth q = clamp01 (Sprites.trans_y q / FAR_PLANE).
Proof.
  unfold Sprites.project.
  destruct (py_div 1 _) as [inv_det | e]; cbn; [|discriminate].
  destruct (Qle_bool _ 0) eqn:Ety; [discriminate|].
  destruct (py_div _ _) as [r | e]; cbn; [|discriminate].
  destruct (py_div _ _) as [hq | e]; cbn; [|discriminate].
  destruct (_ || _)%bool; [discriminate|].
  intros H. injection H as <-. cbn.
  exists inv_det. repeat split.
  apply Qnot_le_lt. intros Hle. apply Qle_bool_iff in Hle. congruence.
Qed.

Lemma depth_of_distance (d : Q) :
  0 <= clamp01 (d / FAR_PLANE) <= 1
  /\ (d <= 0 -> clamp01 (d / FAR_PLANE) == 0)
  /\ (0 <= d <= FAR_PLANE -> clamp01 (d / FAR_PLANE) == d / FAR_PLANE)
  /\ (FAR_PLANE <= d -> clamp01 (d / FAR_PLANE) == 1).
Proof.
  split; [apply clamp01_range|].
  unfold clamp01, FAR_PLANE, Qdiv. change (/ 100) with (1 # 100).
  destruct (Qltb (d * (1 # 100)) 0) eqn:E0;
    destruct (Qltb 1 (d * (1 # 100))) eqn:E1;
    rewrite ?Qltb_lt, ?Qltb_ge in *;
    (split; [|split]); intros; lra.
Qed.

Lemma setup_ray_dir (cam : camera) (x : Z) :
  Raycaster.ray_dir_x (Raycaster.setup cam x)
  = dir_x cam + plane_x cam * camera_x_of x
  /\ Raycaster.ray_dir_y (Raycaster.setup cam x)
     = dir_y cam + plane_y cam * camera_x_of x.
Proof.
  unfold Raycaster.setup, camera_x_of.
  destruct (Qltb _ 0); destruct (Qltb _ 0); cbn; auto.
Qed.

(** The point of the ray at the reported distance lies on the entered face
    of the hit cell: the perpendicular distance is the forward distance of
    the place where the ray meets the wall. *)
Lemma wall_on_face (fuel : nat) (m : grid) (cam : camera) (x : Z)
      (h : Raycaster.wall_hit) :
  Raycaster.cast_column fuel m cam x = Some (Ok h) -> on_face cam x h.
Proof.
  intros H. apply cast_column_inv in H as (s & _ & H).
  apply finish_inv in H as (Hp & Hside & _ & Hmx & Hmy & _).
  destruct (setup_ray_dir cam x) as [Hrx Hry].
  unfold on_face, wall_point, camera_point. cbn [fst snd].
  rewrite Hside, Hmx, Hmy, Hp. unfold Raycaster.hit_distance.
  destruct (Raycaster.side s =? 0)%Z; cbn [fst]; intros Hne.
  - assert (E : Qneqb (Raycaster.ray_dir_x (Raycaster.setup cam x)) 0 = true).
    { unfold Qneqb. destruct (Qeq_bool _ 0) eqn:Ez; [|reflexivity].
      apply Qeq_bool_iff in Ez. contradiction. }
    rewrite E. rewrite Hrx in *. field. exact Hne.
  - assert (E : Qneqb (Raycaster.ray_dir_y (Raycaster.setup cam x)) 0 = true).
    { unfold Qneqb. destruct (Qeq_bool _ 0) eqn:Ez; [|reflexivity].
      apply Qeq_bool_iff in Ez. contradiction. }
    rewrite E. rewrite Hry in *. field. exact Hne.
Qed.

Lemma wall_depth_formula (fuel : nat) (m : grid) (cam : camera) (x : Z)
      (h : Raycaster.wall_hit) :
  Raycaster.cast_column fuel m cam x = Some (Ok h) ->
  Raycaster.depth h = clamp01 (Raycaster.perp_wall_dist h / FAR_PLANE).
Proof.
  intros H. apply cast_column_inv in H as (s & _ & H).
  apply finish_inv in H. tauto.
Qed.

(** What the projector computes for a billboard at forward distance [a]:
    not [a] but [a] times the factor of the offset. *)
Lemma billboard_trans_y (cam : camera) (a b : Q) (bl : Bullet.t)
      (q : Sprites.quad) :
  stands_at bl (camera_point cam a b) ->
  Sprites.project cam bl = Ok (Some q) ->
  Sprites.trans_y q == a * offset_scale cam
  /\ 0 < a * offset_scale cam
  /\ Sprites.depth q == clamp01 (a * offset_scale cam / FAR_PLANE).
Proof.
  intros [Hx Hy] P. cbn [camera_point fst snd] in Hx, Hy.
  apply project_inv in P as (i & Hi & Hty & Hpos & Hd).
  unfold py_div in Hi.
  destruct (Qeq_bool _ 0) eqn:Ez; [discriminate Hi|].
  injection Hi as <-.
  assert (Hne : ~ camera_det cam + 1e-9 == 0).
  { intros Hz. apply Qeq_bool_iff in Hz. unfold camera_det in Hz.
    rewrite Hz in Ez. discriminate Ez. }
  assert (E : Sprites.trans_y q == a * offset_scale cam).
  { rewrite Hty, Hx, Hy. unfold offset_scale, camera_det in *.
    set (e := 1e-9) in *. clearbody e. field. exact Hne. }
  split; [exact E|]. split; [rewrite <- E; exact Hpos|].
  rewrite Hd. apply clamp01_compat. rewrite E. reflexivity.
Qed.

Lemma offset_ratio_small (d e : Q) :
  0 < e -> 0 < d -> 0 < d / (d + e) /\ d / (d + e) <= 1.
Proof.
  intros He Hd. split.
  - apply Qlt_shift_div_l; lra.
  - apply Qle_shift_div_r; lra.
Qed.

Lemma offset_ratio_large (d e : Q) :
  0 < e -> d + e < 0 -> 1 <= d / (d + e).
Proof.
  intros He Hd.
  setoid_replace (d / (d + e)) with ((- d) / (- (d + e))) by (field; lra).
  apply Qle_shift_div_l; lra.
Qed.

Lemma offset_scale_small (cam : camera) :
  0 < camera_det cam -> 0 < offset_scale cam /\ offset_scale cam <= 1.
Proof. apply offset_ratio_small. reflexivity. Qed.

Lemma offset_scale_large (cam : camera) :
  camera_det cam + 1e-9 < 0 -> 1 <= offset_scale cam.
Proof. apply offset_ratio_large. reflexivity. Qed.

Lemma scaled_le (a k : Q) : 0 < a * k -> 0 < k -> k <= 1 -> a * k <= a.
Proof.
  intros H Hk Hk1.
  assert (Ha : 0 < a).
  { destruct (Qlt_le_dec 0 a) as [?|Hle]; [assumption|]. exfalso.
    assert (a * k <= 0 * k) by (apply Qmult_le_compat_r; lra). lra. }
  setoid_replace a with (a * 1) at 2 by ring.
  apply Qmult_le_l; assumption.
Qed.
Lemma scaled_ge (a k : Q) : 0 < a * k -> 1 <= k -> a <= a * k.
Proof.
  intros H Hk.
  assert (Ha : 0 < a).
  { destruct (Qlt_le_dec 0 a) as [?|Hle]; [assumption|]. exfalso.
    assert (a * k <= 0 * k) by (apply Qmult_le_compat_r; lra). lra. }
  setoid_replace a with (a * 1) at 1 by ring.
  apply Qmult_le_l; assumption.
Qed.
Lemma scaled_mono (a1 a2 k : Q) :
  0 < a1 * k -> 0 <= a1 -> a1 <= a2 -> a1 * k <= a2 * k.
Proof.
  intros H Ha Hle.
  assert (Hk : 0 <= k).
  { destruct (Qlt_le_dec k 0) as [Hlt|?]; [|assumption]. exfalso.
    assert (k * a1 <= 0 * a1) by (apply Qmult_le_compat_r; lra).
    lra. }
  apply Qmult_le_compat_r; assumption.
Qed.

(** C1 as stated fails.  The centre column of the 5x5 scenario hits the east
    wall at forward distance 1.5 and a billboard stands on that wall face,
    at forward distance 1.5 too: their depth values differ.  A billboard
    that stands nearer than the wall on the same view ray, at forward
    distance 1.5 - 1e-9, gets a depth above the wall's. *)
Lemma depth_encoding_counterexample :
  let cam := mkCamera 2.5 2.5 1 0 0 0.66 in
  let on_wall := Bullet.init 4 2.5 10 0 in
  let nearer := Bullet.init (4 - 1e-9) 2.5 10 0 in
  exists h q q',
    Raycaster.cast_column 8 (border_map5 1) cam 512 = Some (Ok h)
    /\ Sprites.project cam on_wall = Ok (Some q)
    /\ Sprites.project cam nearer = Ok (Some q')
    /\ Raycaster.perp_wall_dist h == 1.5
    /\ stands_at on_wall (camera_point cam 1.5 0)
    /\ ~ Raycaster.depth h == Sprites.depth q
    /\ stands_at nearer (camera_point cam (1.5 - 1e-9) 0)
    /\ Raycaster.depth h < Sprites.depth q'.
Proof.
  intros cam on_wall nearer.
  eexists. eexists. eexists.
  split; [vm_compute; reflexivity|].
  split; [vm_compute; reflexivity|].
  split; [vm_compute; reflexivity|].
  split; [vm_compute; reflexivity|].
  split; [split; vm_compute; reflexivity|].
  split; [vm_compute; discriminate|].
  split; [split; vm_compute; reflexivity|].
  vm_compute. reflexivity.
Qed.

(** C1, amended.  Both renderers encode depth as [clamp01(d / FAR_PLANE)]
    with [FAR_PLANE = 100]: 0 for [d <= 0], [d / 100] up to the far plane,
    1 beyond it.  For a wall [d] is the perpendicular wall distance, which
    is the forward distance of the point where the ray meets the face of
    the hit cell.  For a billboard [d] is [trans_y], which is the forward
    distance [a] of the billboard times [offset_scale], because the
    projector inverts the determinant plus 1e-9.  So a wall and a billboard
    carry equal depths when the wall's distance equals [a * offset_scale],
    and are ordered as these two values are; a billboard no farther than
    the wall is not behind it when the determinant is positive, a billboard
    no nearer than the wall is not in front of it when the determinant plus
    1e-9 is negative.  Two billboards in front of one camera, and two
    walls, are ordered by depth as by forward distance. *)
Theorem depth_encoding_spec :
  FAR_PLANE == 100
  /\ (forall (fuel : nat) (m : grid) (cam : camera) (x : Z)
             (h : Raycaster.wall_hit),
        Raycaster.cast_column fuel m cam x = Some (Ok h) ->
        let d := Raycaster.perp_wall_dist h in
        on_face cam x h
        /\ Raycaster.depth h = clamp01 (d / FAR_PLANE)
        /\ 0 <= Raycaster.depth h <= 1
        /\ (d <= 0 -> Raycaster.depth h == 0)
        /\ (0 <= d <= FAR_PLANE -> Raycaster.depth h == d / FAR_PLANE)
        /\ (FAR_PLANE <= d -> Raycaster.depth h == 1))
  /\ (forall (cam : camera) (a b : Q) (bl : Bullet.t) (q : Sprites.quad),
        stands_at bl (camera_point cam a b) ->
        Sprites.project cam bl = Ok (Some q) ->
        let d := a * offset_scale cam in
        Sprites.trans_y q == d
        /\ 0 < d
        /\ Sprites.depth q == clamp01 (d / FAR_PLANE)
        /\ 0 <= Sprites.depth q <= 1
        /\ (d <= FAR_PLANE -> Sprites.depth q == d / FAR_PLANE)
        /\ (FAR_PLANE <= d -> Sprites.depth q == 1))
  /\ (forall (fuel : nat) (m : grid) (cam : camera) (x : Z)
             (h : Raycaster.wall_hit) (a b : Q) (bl : Bullet.t)
             (q : Sprites.quad),
        Raycaster.cast_column fuel m cam x = Some (Ok h) ->
        stands_at bl (camera_point cam a b) ->
        Sprites.project cam bl = Ok (Some q) ->
        let dw := Raycaster.perp_wall_dist h in
        let db := a * offset_scale cam in
        (dw == db -> Raycaster.depth h == Sprites.depth q)
        /\ (dw <= db -> Raycaster.depth h <= Sprites.depth q)
        /\ (db <= dw -> Sprites.depth q <= Raycaster.depth h)
        /\ (0 < camera_det cam -> a <= dw ->
            Sprites.depth q <= Raycaster.depth h)
        /\ (camera_det cam + 1e-9 < 0 -> dw <= a ->
            Raycaster.depth h <= Sprites.depth q))
  /\ (forall (cam : camera) (a1 b1 a2 b2 : Q) (bl1 bl2 : Bullet.t)
             (q1 q2 : Sprites.quad),
        stands_at bl1 (camera_point cam a1 b1) ->
        stands_at bl2 (camera_point cam a2 b2) ->
        Sprites.project cam bl1 = Ok (Some q1) ->
        Sprites.project cam bl2 = Ok (Some q2) ->
        0 <= a1 -> a1 <= a2 ->
        Sprites.depth q1 <= Sprites.depth q2)
  /\ (forall (fuel1 fuel2 : nat) (m1 m2 : grid) (cam1 cam2 : camera)
             (x1 x2 : Z) (h1 h2 : Raycaster.wall_hit),
        Raycaster.cast_column fuel1 m1 cam1 x1 = Some (Ok h1) ->
        Raycaster.cast_column fuel2 m2 cam2 x2 = Some (Ok h2) ->
        Raycaster.perp_wall_dist h1 <= Raycaster.perp_wall_dist h2 ->
        Raycaster.depth h1 <= Raycaster.depth h2).
Proof.
  split; [reflexivity|].
  split; [|split; [|split; [|split]]].
  - intros fuel m cam x h H d.
    pose proof (wall_depth_formula _ _ _ _ _ H) as Hd. fold d in Hd.
    destruct (depth_of_distance d) as (Hr & H0 & Hmid & Hfar).
    split; [exact (wall_on_face _ _ _ _ _ H)|].
    split; [exact Hd|]. rewrite Hd. auto.
  - intros cam a b bl q Hat P d.
    destruct (billboard_trans_y _ _ _ _ _ Hat P) as (Hty & Hpos & Hd).
    fold d in Hty, Hpos, Hd.
    destruct (depth_of_distance d) as (Hr & _ & Hmid & Hfar).
    split; [exact Hty|]. split; [exact Hpos|]. split; [exact Hd|].
    split; [rewrite Hd; exact Hr|].
    split; [intros Hle; rewrite Hd; apply Hmid; split;
            [apply Qlt_le_weak, Hpos | exact Hle]|].
    intros Hge. rewrite Hd. apply Hfar, Hge.
  - intros fuel m cam x h a b bl q H Hat P dw db.
    pose proof (wall_depth_formula _ _ _ _ _ H) as Hw. fold dw in Hw.
    destruct (billboard_trans_y _ _ _ _ _ Hat P) as (_ & Hpos & Hb).
    fold db in Hpos, Hb.
    assert (Hle : forall u v, u <= v ->
                    clamp01 (u / FAR_PLANE) <= clamp01 (v / FAR_PLANE)).
    { intros u v Huv. apply clamp01_mono, over_far_plane_mono, Huv. }
    rewrite Hw, Hb.
    split; [intros E; apply clamp01_compat; rewrite E; reflexivity|].
    split; [apply Hle|]. split; [apply Hle|].
    split.
    + intros Hdet Ha. apply Hle.
      destruct (offset_scale_small cam Hdet) as [Hk0 Hk1].
      apply Qle_trans with a; [|exact Ha].
      apply scaled_le; assumption.
    + intros Hdet Ha. apply Hle.
      apply Qle_trans with a; [exact Ha|].
      apply scaled_ge; [exact Hpos|]. apply offset_scale_large, Hdet.
  - intros cam a1 b1 a2 b2 bl1 bl2 q1 q2 Hat1 Hat2 P1 P2 Ha1 Ha12.
    destruct (billboard_trans_y _ _ _ _ _ Hat1 P1) as (_ & Hpos & Hd1).
    destruct (billboard_trans_y _ _ _ _ _ Hat2 P2) as (_ & _ & Hd2).
    rewrite Hd1, Hd2.
    apply clamp01_mono, over_far_plane_mono, scaled_mono; assumption.
  - intros fuel1 fuel2 m1 m2 cam1 cam2 x1 x2 h1 h2 H1 H2 Hle.
    rewrite (wall_depth_formula _ _ _ _ _ H1),
            (wall_depth_formula _ _ _ _ _ H2).
    apply clamp01_mono, over_far_plane_mono, Hle.
Qed.

Lemma depth_encoding_spec_witness :
  let cam := mkCamera 2.5 2.5 1 0 0 0.66 in
  let on_wall := Bullet.init 4 2.5 10 0 in
  let beyond := Bullet.init 152.5 2.5 10 0 in
  exists h q qfar,
    Raycaster.cast_column 8 (border_map5 1) cam 512 = Some (Ok h)
    /\ Sprites.project cam on_wall = Ok (Some q)
    /\ Sprites.project cam beyond = Ok (Some qfar)
    /\ Raycaster.depth h <= Sprites.depth q
    /\ Sprites.depth q <= Sprites.depth qfar
    /\ Sprites.depth qfar == 1.
Proof.
  intros cam on_wall beyond.
  destruct depth_encoding_spec as (_ & _ & Hbill & Hmix & Hbb & _).
  eexists. eexists. eexists.
  split; [vm_compute; reflexivity|].
  split; [vm_compute; reflexivity|].
  split; [vm_compute; reflexivity|].
  split; [|split].
  - refine (proj2 (proj2 (proj2 (proj2
      (Hmix 8%nat (border_map5 1) cam 512%Z _ 1.5 0 on_wall _ _ _ _))))
      _ _).
    + vm_compute. reflexivity.
    + split; vm_compute; reflexivity.
    + vm_compute. reflexivity.
    + vm_compute. reflexivity.
    + vm_compute. discriminate.
  - refine (Hbb cam 1.5 0 150 0 on_wall beyond _ _ _ _ _ _ _ _).
    + split; vm_compute; reflexivity.
    + split; vm_compute; reflexivity.
    + vm_compute. reflexivity.
    + vm_compute. reflexivity.
    + vm_compute. discriminate.
    + vm_compute. discriminate.
  - refine (proj2 (proj2 (proj2 (proj2 (proj2
      (Hbill cam 150 0 beyond _ _ _))))) _).
    + split; vm_compute; reflexivity.
    + vm_compute. reflexivity.
    + vm_compute. discriminate.
Defined.

(** ** Texture coordinate *)

Lemma frac_range (q : Q) : 0 <= frac q /\ frac q < 1.
Proof.
  unfold frac.
  pose proof (Qfloor_le q) as Hlo.
  pose proof (Qlt_floor q) as Hhi.
  rewrite inject_Z_plus in Hhi.
  change (inject_Z 1) with 1 in Hhi.
  split; lra.
Qed.

(** C7 as stated fails: the camera at (2.5, 2.0) looking along +x in the 5x5
    map hits the east wall at the integral coordinate 2.0 of the face; the
    fractional part is 0, the flip applies, and the column gets [u = 1]. *)
Lemma texture_u_half_open_counterexample :
  exists h,
    Raycaster.cast_column 8 (border_map5 1) (mkCamera 2.5 2 1 0 0 0.66) 512
    = Some (Ok h)
    /\ Raycaster.u h == 1
    /\ ~ (0 <= Raycaster.u h /\ Raycaster.u h < 1).
Proof.
  eexists. split; [vm_compute; reflexivity|].
  split; [reflexivity|].
  intros [_ H]. vm_compute in H. discriminate H.
Qed.

(** C7, amended. The texture coordinate of a column is the fractional part
    of the hit position along the wall face, replaced by [1 - frac] when
    (side = 0 and ray_dir_x > 0) or (side = 1 and ray_dir_y < 0).  It lies in
    [0, 1]: in [0, 1) when it is not flipped and in (0, 1] when it is. *)
Theorem texture_u_range (fuel : nat) (m : grid) (cam : camera) (x : Z)
        (h : Raycaster.wall_hit) :
  Raycaster.cast_column fuel m cam x = Some (Ok h) ->
  let r := Raycaster.setup cam x in
  Raycaster.u h
  = (if flipped r h then 1 - frac (hit_position cam r h)
     else frac (hit_position cam r h))
  /\ flipped r h
     = (((Raycaster.hit_side h =? 0)%Z && Qltb 0 (Raycaster.ray_dir_x r))
        || ((Raycaster.hit_side h =? 1)%Z && Qltb (Raycaster.ray_dir_y r) 0))
  /\ 0 <= Raycaster.u h <= 1
  /\ (flipped r h = false -> Raycaster.u h < 1)
  /\ (flipped r h = true -> 0 < Raycaster.u h).
Proof.
  intros H r.
  apply cast_column_inv in H as (s & _ & H).
  apply finish_inv in H as (_ & _ & _ & _ & _ & _ & Hu).
  fold r in Hu. rewrite Hu.
  destruct (frac_range (hit_position cam r h)) as [Hlo Hhi].
  split; [reflexivity|]. split; [reflexivity|].
  destruct (flipped r h); repeat split; try lra; intros; try discriminate; lra.
Qed.

Lemma texture_u_range_witness :
  exists h,
    Raycaster.cast_column 8 (border_map5 1) (mkCamera 2.5 2 1 0 0 0.66) 512
    = Some (Ok h)
    /\ 0 <= Raycaster.u h <= 1.
Proof.
  eexists. split; [vm_compute; reflexivity|].
  refine (proj1 (proj2 (proj2
    (texture_u_range 8 (border_map5 1) (mkCamera 2.5 2 1 0 0 0.66) 512 _ _)))).
  vm_compute. reflexivity.
Defined.

(** ** The 5x5 scenario *)

(** C3 as stated fails: from x = 2.5 the face of the east border cell, at
    x = 4, is 1.5 away, not 2.0. *)
Lemma center_column_distance_counterexample :
  exists h,
    Raycaster.cast_column 8 (border_map5 1) (mkCamera 2.5 2.5 1 0 0 0.66) 512
    = Some (Ok h)
    /\ Raycaster.perp_wall_dist h == 1.5
    /\ 0.5 <= Qabs (Raycaster.perp_wall_dist h - 2)
    /\ ~ Raycaster.perp_wall_dist h == 2.
Proof.
  eexists. split; [vm_compute; reflexivity|].
  split; [reflexivity|].
  split; [vm_compute; discriminate|].
  intros H. vm_compute in H. discriminate H.
Qed.

(** C3, amended. In the 5x5 map with a border of material [b > 0] and an
    empty interior, the camera at (2.5, 2.5) facing +x with a view plane
    (0, p) sees in the centre column the east border cell (4, 2) on an
    x-facing side, at perpendicular distance exactly 1.5, with material [b]
    and depth 1.5 / 100.  Two iterations of the DDA loop are enough. *)
Theorem center_column_hits_east_wall (b : Z) (p : Q) (fuel : nat) :
  (0 < b)%Z ->
  (2 <= fuel)%nat ->
  exists h,
    Raycaster.cast_column fuel (border_map5 b) (mkCamera 2.5 2.5 1 0 0 p)
                          (WIDTH / 2)
    = Some (Ok h)
    /\ Raycaster.perp_wall_dist h == 1.5
    /\ Raycaster.hit_tex_id h = b
    /\ Raycaster.hit_side h = 0%Z
    /\ Raycaster.hit_map_x h = 4%Z
    /\ Raycaster.hit_map_y h = 2%Z
    /\ Raycaster.depth h == 0.015.
Proof.
  intros Hb Hfuel.
  destruct fuel as [| [| fuel]]; try lia.
  destruct b as [| b | b]; try lia.
  set (cam := mkCamera 2.5 2.5 1 0 0 p).
  set (m := border_map5 (Z.pos b)).
  assert (Hw : exists s,
             Raycaster.walk (S (S fuel)) m cam (WIDTH / 2) = Some (Ok s)
             /\ Raycaster.side s = 0%Z /\ Raycaster.tex_id s = Z.pos b
             /\ Raycaster.map_x s = 4%Z /\ Raycaster.map_y s = 2%Z
             /\ fst (Raycaster.hit_distance cam
                       (Raycaster.setup cam (WIDTH / 2)) s) == 1.5).
  { subst cam m. destruct p as [[| pn | pn] pd];
      (eexists; split; [vm_compute; reflexivity|];
       repeat split; vm_compute; reflexivity). }
  destruct Hw as (s & Hw & Hside & Htex & Hmx & Hmy & Hperp).
  destruct (finish_ok cam (Raycaster.setup cam (WIDTH / 2)) s) as [h Hh].
  { destruct (Qeq_bool _ 0) eqn:E; [|reflexivity].
    apply Qeq_bool_iff in E. rewrite Hperp in E. discriminate E. }
  exists h. split.
  { unfold Raycaster.cast_column. rewrite Hw, Hh. reflexivity. }
  apply finish_inv in Hh as (Hp & Hs & Ht & Hx & Hy & Hd & _).
  rewrite Hd, Hp, Hs, Ht, Hx, Hy.
  repeat split; try assumption.
  rewrite (clamp01_compat _ (1.5 / FAR_PLANE)).
  - reflexivity.
  - rewrite Hperp. reflexivity.
Qed.

Lemma center_column_hits_east_wall_witness :
  exists h,
    Raycaster.cast_column 8 (border_map5 1) (mkCamera 2.5 2.5 1 0 0 0.66) 512
    = Some (Ok h)
    /\ Raycaster.perp_wall_dist h == 1.5
    /\ Raycaster.hit_tex_id h = 1%Z
    /\ Raycaster.hit_side h = 0%Z
    /\ Raycaster.hit_map_x h = 4%Z
    /\ Raycaster.hit_map_y h = 2%Z
    /\ Raycaster.depth h == 0.015.
Proof.
  apply (center_column_hits_east_wall 1 0.66 8); [reflexivity | repeat constructor].
Defined.

(** ** Termination of the DDA loop *)

Lemma in_map_iff (m : grid) (ix iy : Z) :
  in_map m ix iy = true
  <-> (0 <= ix < MAP_W m /\ 0 <= iy < MAP_H m)%Z.
Proof.
  unfold in_map. rewrite !andb_true_iff, !Z.leb_le, !Z.ltb_lt. tauto.
Qed.

Lemma py_index_ok {A : Type} (l : list A) (i : Z) :
  (0 <= i < Z.of_nat (length l))%Z ->
  exists a, py_index l i = Ok a /\ nth_error l (Z.to_nat i) = Some a.
Proof.
  intros Hi. unfold py_index.
  destruct (Z.ltb_spec i 0) as [Hneg | _]; [lia|].
  destruct (Z.ltb_spec i 0) as [Hneg | _]; [lia|].
  destruct (nth_error l (Z.to_nat i)) as [a |] eqn:E.
  - exists a. split; reflexivity.
  - apply nth_error_None in E. lia.
Qed.

Lemma cell_defined (m : grid) (ix iy : Z) :
  rectangular m = true -> in_map m ix iy = true ->
  exists v, cell m ix iy = Ok v.
Proof.
  intros Hrect Hin. apply in_map_iff in Hin as [Hx Hy].
  destruct (py_index_ok m iy Hy) as (row & Hrow & Hnth).
  assert (Hlen : Z.of_nat (length row) = MAP_W m).
  { unfold rectangular in Hrect.
    rewrite forallb_forall in Hrect.
    apply Z.eqb_eq, Hrect. eapply nth_error_In, Hnth. }
  destruct (py_index_ok row ix) as (v & Hv & _); [lia|].
  exists v. unfold cell. rewrite Hrow. cbn. exact Hv.
Qed.

Lemma in_range (n i : Z) : In i (range n) <-> (0 <= i < n)%Z.
Proof.
  unfold range. rewrite List.in_map_iff. split.
  - intros (k & <- & Hk). apply in_seq in Hk. lia.
  - intros Hi. exists (Z.to_nat i). split; [lia|]. apply in_seq. lia.
Qed.

Lemma border_cell_positive (m : grid) (ix iy : Z) :
  border_nonzero m = true ->
  in_map m ix iy = true ->
  on_border m ix iy = true ->
  exists v, cell m ix iy = Ok v /\ (0 < v)%Z.
Proof.
  intros Hborder Hin Hb. apply in_map_iff in Hin as [Hx Hy].
  unfold border_nonzero in Hborder.
  rewrite forallb_forall in Hborder.
  specialize (Hborder iy (proj2 (in_range _ _) Hy)).
  rewrite forallb_forall in Hborder.
  specialize (Hborder ix (proj2 (in_range _ _) Hx)).
  rewrite Hb in Hborder. cbn in Hborder.
  unfold cell_positive in Hborder.
  destruct (cell m ix iy) as [v | e]; [|discriminate Hborder].
  exists v. split; [reflexivity|]. apply Z.ltb_lt, Hborder.
Qed.

Section DdaLoop.

Variable m : grid.
Variables ddx ddy : Q.
Variables sx sy : Z.
Hypothesis Hsx : unit_step sx.
Hypothesis Hsy : unit_step sy.

Local Abbreviation loop := (Raycaster.dda_loop m ddx ddy sx sy).
Local Abbreviation next := (Raycaster.advance ddx ddy sx sy).
Local Abbreviation inside s :=
  (in_map m (Raycaster.map_x s) (Raycaster.map_y s)).

Lemma loop_step (fuel : nat) (s : Raycaster.dda) :
  loop (S fuel) s =
  if negb (inside (next s)) then Some (Ok (Raycaster.set_tex (next s) 1))
  else match cell m (Raycaster.map_x (next s)) (Raycaster.map_y (next s)) with
       | Raise e => Some (Raise e)
       | Ok v => if (0 <? v)%Z
                 then Some (Ok (Raycaster.set_tex (next s) v))
                 else loop fuel (next s)
       end.
Proof. reflexivity. Qed.

Lemma steps_left_inside (s : Raycaster.dda) :
  inside s = true -> (2 <= steps_left m sx sy s)%Z.
Proof.
  intros H. apply in_map_iff in H.
  unfold steps_left, remaining.
  destruct (sx =? 1)%Z; destruct (sy =? 1)%Z; lia.
Qed.

Lemma steps_left_next (s : Raycaster.dda) :
  steps_left m sx sy (next s) = (steps_left m sx sy s - 1)%Z.
Proof.
  unfold Raycaster.advance, steps_left, remaining.
  destruct Hsx as [-> | ->]; destruct Hsy as [-> | ->];
    destruct (Qltb _ _); cbn; lia.
Qed.

(** From a cell of the map the loop ends within [steps_left - 1]
    iterations, on a wall cell of the map or one step outside. *)
Lemma loop_total_inside (Hrect : rectangular m = true) (fuel : nat) :
  forall s,
    inside s = true ->
    (steps_left m sx sy s <= Z.of_nat fuel + 1)%Z ->
    exists r,
      loop fuel s = Some (Ok r)
      /\ (0 < Raycaster.tex_id r)%Z
      /\ (inside r = true ->
          cell m (Raycaster.map_x r) (Raycaster.map_y r)
          = Ok (Raycaster.tex_id r)).
Proof.
  induction fuel as [| fuel IH]; intros s Hin Hm.
  - pose proof (steps_left_inside s Hin). lia.
  - rewrite loop_step.
    destruct (inside (next s)) eqn:Enext; cbn [negb].
    + destruct (cell_defined m _ _ Hrect Enext) as [v Hv].
      rewrite Hv.
      destruct (Z.ltb_spec 0 v) as [Hpos | Hzero].
      * eexists. split; [reflexivity|].
        split; [exact Hpos|]. intros _. exact Hv.
      * apply IH; [exact Enext|].
        rewrite steps_left_next. lia.
    + eexists. split; [reflexivity|].
      split; [reflexivity|].
      cbn. rewrite Enext. discriminate.
Qed.

(** From any state at all. *)
Lemma loop_total (Hrect : rectangular m = true) (fuel : nat) (s : Raycaster.dda) :
  (enough_fuel m <= fuel)%nat ->
  exists r,
    loop fuel s = Some (Ok r)
    /\ (0 < Raycaster.tex_id r)%Z
    /\ (inside r = true ->
        cell m (Raycaster.map_x r) (Raycaster.map_y r)
        = Ok (Raycaster.tex_id r)).
Proof.
  unfold enough_fuel. intros Hfuel.
  destruct fuel as [| fuel]; [lia|].
  rewrite loop_step.
  destruct (inside (next s)) eqn:Enext; cbn [negb].
  - destruct (cell_defined m _ _ Hrect Enext) as [v Hv].
    rewrite Hv.
    destruct (Z.ltb_spec 0 v) as [Hpos | Hzero].
    + eexists. split; [reflexivity|].
      split; [exact Hpos|]. intros _. exact Hv.
    + apply (loop_total_inside Hrect); [exact Enext|].
      pose proof Enext as Hb. apply in_map_iff in Hb.
      unfold steps_left, remaining.
      destruct (sx =? 1)%Z; destruct (sy =? 1)%Z; lia.
  - eexists. split; [reflexivity|].
    split; [reflexivity|].
    cbn. rewrite Enext. discriminate.
Qed.

(** More fuel never changes an answer. *)
Lemma loop_fuel_mono (fuel : nat) :
  forall s r fuel',
    loop fuel s = Some r -> (fuel <= fuel')%nat -> loop fuel' s = Some r.
Proof.
  induction fuel as [| fuel IH]; intros s r fuel' H Hle.
  - discriminate H.
  - destruct fuel' as [| fuel']; [lia|].
    rewrite loop_step in *.
    destruct (negb (inside (next s))); [exact H|].
    destruct (cell m _ _) as [v | e]; [|exact H].
    destruct (0 <? v)%Z; [exact H|].
    apply (IH _ _ _ H). lia.
Qed.

(** Leaving the map is reported with the default material 1. *)
Lemma loop_outside (fuel : nat) :
  forall s r,
    loop fuel s = Some (Ok r) -> inside r = false ->
    Raycaster.tex_id r = 1%Z.
Proof.
  induction fuel as [| fuel IH]; intros s r H Hout.
  - discriminate H.
  - rewrite loop_step in H.
    destruct (inside (next s)) eqn:Enext; cbn [negb] in H.
    + destruct (cell m _ _) as [v | e]; [|discriminate H].
      destruct (0 <? v)%Z.
      * injection H as <-. cbn in Hout. congruence.
      * apply (IH _ _ H Hout).
    + injection H as <-. reflexivity.
Qed.

Lemma next_inside (s : Raycaster.dda) :
  inside s = true ->
  on_border m (Raycaster.map_x s) (Raycaster.map_y s) = false ->
  inside (next s) = true.
Proof.
  intros Hin Hb. apply in_map_iff in Hin.
  unfold on_border in Hb.
  rewrite !orb_false_iff, !Z.eqb_neq in Hb.
  apply in_map_iff. unfold Raycaster.advance.
  destruct Hsx as [-> | ->]; destruct Hsy as [-> | ->];
    destruct (Qltb _ _); cbn; lia.
Qed.

(** With walls all around, a walk that starts off the border ends in the
    map. *)
Lemma loop_stays_inside (Hborder : border_nonzero m = true) (fuel : nat) :
  forall s r,
    inside s = true ->
    on_border m (Raycaster.map_x s) (Raycaster.map_y s) = false ->
    loop fuel s = Some (Ok r) ->
    inside r = true.
Proof.
  induction fuel as [| fuel IH]; intros s r Hin Hb H.
  - discriminate H.
  - rewrite loop_step in H.
    pose proof (next_inside s Hin Hb) as Enext.
    rewrite Enext in H. cbn [negb] in H.
    destruct (cell m _ _) as [v | e] eqn:Hv; [|discriminate H].
    destruct (Z.ltb_spec 0 v) as [Hpos | Hzero].
    + injection H as <-. exact Enext.
    + apply (IH (next s) r Enext); [|exact H].
      destruct (on_border m (Raycaster.map_x (next s))
                          (Raycaster.map_y (next s))) eqn:Eb; [|reflexivity].
      destruct (border_cell_positive m _ _ Hborder Enext Eb)
        as (v' & Hv' & Hpos').
      rewrite Hv in Hv'. injection Hv' as ->. lia.
Qed.

End DdaLoop.

Lemma setup_spec (cam : camera) (x : Z) :
  unit_step (Raycaster.step_x (Raycaster.setup cam x))
  /\ unit_step (Raycaster.step_y (Raycaster.setup cam x))
  /\ Raycaster.map_x (Raycaster.start (Raycaster.setup cam x))
     = py_int (player_x cam)
  /\ Raycaster.map_y (Raycaster.start (Raycaster.setup cam x))
     = py_int (player_y cam).
Proof.
  unfold Raycaster.setup, unit_step.
  destruct (Qltb _ 0); destruct (Qltb _ 0); cbn; auto.
Qed.

(** On a rectangular map the walk of any column from any camera ends. *)
Lemma walk_total (m : grid) (cam : camera) (x : Z) :
  rectangular m = true ->
  exists s,
    (forall fuel, (enough_fuel m <= fuel)%nat ->
                  Raycaster.walk fuel m cam x = Some (Ok s))
    /\ (0 < Raycaster.tex_id s)%Z
    /\ (in_map m (Raycaster.map_x s) (Raycaster.map_y s) = true ->
        cell m (Raycaster.map_x s) (Raycaster.map_y s)
        = Ok (Raycaster.tex_id s)).
Proof.
  intros Hrect. unfold Raycaster.walk.
  destruct (setup_spec cam x) as (Hsx & Hsy & _ & _).
  set (r := Raycaster.setup cam x) in *.
  destruct (loop_total m (Raycaster.delta_dist_x r) (Raycaster.delta_dist_y r)
                       _ _ Hsx Hsy Hrect (enough_fuel m) (Raycaster.start r)
                       (Nat.le_refl _))
    as (s & Hs & Htex & Hcell).
  exists s. split; [|split; assumption].
  intros fuel Hfuel.
  apply (loop_fuel_mono m _ _ _ _ (enough_fuel m)); assumption.
Qed.

(** C2. On a rectangular map whose border cells are all walls, with the
    camera in a cell off the border, the DDA loop of every column ends
    (any fuel from [enough_fuel] on gives the same answer) on a cell of the
    map and reports that cell's material, which is positive.  On any
    rectangular map and from any camera position the loop ends with a
    positive material, and whenever the reported cell lies outside the map
    the material is the default 1. *)
Theorem raycaster_terminates (m : grid) (cam : camera) (x : Z) :
  rectangular m = true ->
  border_nonzero m = true ->
  strictly_inside m cam = true ->
  (exists s,
      (forall fuel, (enough_fuel m <= fuel)%nat ->
                    Raycaster.walk fuel m cam x = Some (Ok s))
      /\ (0 < Raycaster.tex_id s)%Z
      /\ in_map m (Raycaster.map_x s) (Raycaster.map_y s) = true
      /\ cell m (Raycaster.map_x s) (Raycaster.map_y s)
         = Ok (Raycaster.tex_id s))
  /\ (forall (m' : grid) (cam' : camera) (x' : Z),
         rectangular m' = true ->
         exists s',
           (forall fuel, (enough_fuel m' <= fuel)%nat ->
                         Raycaster.walk fuel m' cam' x' = Some (Ok s'))
           /\ (0 < Raycaster.tex_id s')%Z)
  /\ (forall (m' : grid) (cam' : camera) (x' : Z) (fuel : nat)
             (s' : Raycaster.dda),
         Raycaster.walk fuel m' cam' x' = Some (Ok s') ->
         in_map m' (Raycaster.map_x s') (Raycaster.map_y s') = false ->
         Raycaster.tex_id s' = 1%Z).
Proof.
  intros Hrect Hborder Hin. split; [|split].
  - destruct (walk_total m cam x Hrect) as (s & Hs & Htex & Hcell).
    assert (Hinside :
              in_map m (Raycaster.map_x s) (Raycaster.map_y s) = true).
    { destruct (setup_spec cam x) as (Hsx & Hsy & Hmx & Hmy).
      unfold strictly_inside in Hin.
      apply andb_true_iff in Hin as [Hcam Hoff].
      apply negb_true_iff in Hoff.
      specialize (Hs _ (Nat.le_refl _)). unfold Raycaster.walk in Hs.
      apply (loop_stays_inside m _ _ _ _ Hsx Hsy Hborder _ _ _) in Hs.
      - exact Hs.
      - rewrite Hmx, Hmy. exact Hcam.
      - rewrite Hmx, Hmy. exact Hoff. }
    exists s. repeat split; auto.
  - intros m' cam' x' Hrect'.
    destruct (walk_total m' cam' x' Hrect') as (s' & Hs' & Htex' & _).
    exists s'. split; assumption.
  - intros m' cam' x' fuel s' Hw Hout.
    apply (loop_outside m' _ _ _ _ fuel _ _ Hw Hout).
Qed.

Lemma raycaster_terminates_witness :
  let m := border_map5 1 in
  let cam := mkCamera 2.5 2.5 1 0 0 0.66 in
  rectangular m = true
  /\ border_nonzero m = true
  /\ strictly_inside m cam = true
  /\ exists s,
       Raycaster.walk (enough_fuel m) m cam 512 = Some (Ok s)
       /\ (0 < Raycaster.tex_id s)%Z
       /\ in_map m (Raycaster.map_x s) (Raycaster.map_y s) = true.
Proof.
  intros m cam.
  assert (H1 : rectangular m = true) by reflexivity.
  assert (H2 : border_nonzero m = true) by reflexivity.
  assert (H3 : strictly_inside m cam = true) by reflexivity.
  repeat split; try assumption.
  destruct (raycaster_terminates m cam 512 H1 H2 H3)
    as ((s & Hs & Htex & Hinside & _) & _).
  exists s. split; [apply Hs; lia|]. split; assumption.
Defined.

(** ** Cleanup in the frame loop *)

Lemma forallb_filter_same {A : Type} (f : A -> bool) (l : list A) :
  forallb f (filter f l) = true.
Proof.
  induction l as [| a l IH]; [reflexivity|].
  cbn. destruct (f a) eqn:E; [cbn; rewrite E|]; exact IH.
Qed.

Lemma hit_first_length (b : Bullet.t) (es : list Enemy.t) :
  length (fst (Frame.hit_first b es)) = length es.
Proof.
  induction es as [| e es IH]; [reflexivity|].
  cbn [Frame.hit_first].
  destruct (Enemy.alive e && _)%bool; [reflexivity|].
  destruct (Frame.hit_first b es) as [es1 used]. cbn in *.
  rewrite IH. reflexivity.
Qed.

Lemma step_bullets_length (m : grid) (dt : Q) (bs : list Bullet.t) :
  forall es r,
    Frame.step_bullets m dt bs es = Ok r -> length (snd r) = length es.
Proof.
  induction bs as [| b bs IH]; intros es r H.
  - injection H as <-. reflexivity.
  - cbn [Frame.step_bullets] in H.
    destruct (Bullet.update m b dt) as [b1 | e]; [|discriminate H].
    cbn [bind] in H.
    destruct (negb (Bullet.alive b1)).
    + destruct (Frame.step_bullets m dt bs es) as [r1 | e] eqn:E;
        [|discriminate H].
      injection H as <-. cbn. apply (IH _ _ E).
    + pose proof (hit_first_length b1 es) as Hlen.
      destruct (Frame.hit_first b1 es) as [es1 used]. cbn in Hlen.
      destruct (Frame.step_bullets m dt bs es1) as [r1 | e] eqn:E;
        [|discriminate H].
      injection H as <-. cbn. rewrite (IH _ _ E). exact Hlen.
Qed.

Lemma mapM_length {A B : Type} (f : A -> res B) (l : list A) :
  forall l', mapM f l = Ok l' -> length l' = length l.
Proof.
  induction l as [| a l IH]; intros l' H.
  - injection H as <-. reflexivity.
  - cbn in H. destruct (f a) as [b | e]; [|discriminate H].
    cbn in H. destruct (mapM f l) as [bs | e]; [|discriminate H].
    injection H as <-. cbn. rewrite (IH bs eq_refl). reflexivity.
Qed.

(** C8. The cleanup of [main] misses the enemy list.  In [hit_scene] every
    entity is alive and the bullet kills the enemy; after the phase the
    bullet is gone, filtered like a picked-up ammo box would be, but the
    dead enemy is still in the enemy list, whatever [math.hypot]
    computes. *)
Lemma frame_cleanup_counterexample :
  Frame.all_alive hit_scene = true
  /\ forall hypot : Q -> Q -> Q,
      exists st',
        Frame.simulate hypot MAP start_camera (1 / 60) (4.5, 4.5) hit_scene
        = Ok st'
        /\ Frame.bullets st' = []
        /\ map Enemy.alive (Frame.enemies st') = [false]
        /\ Frame.all_alive st' = false.
Proof.
  split; [reflexivity|].
  intros hypot. eexists.
  split; [vm_compute; reflexivity|].
  repeat split.
Qed.

(** X24. After the simulation phase of a tick the bullet list and the
    ammo-box list hold alive entities only, and the enemy list has the
    length it had before the phase. *)
Theorem frame_cleanup_spec (hypot : Q -> Q -> Q) (m : grid) (cam : camera)
        (dt : Q) (spawn : Q * Q) (st st' : Frame.state) :
  Frame.simulate hypot m cam dt spawn st = Ok st' ->
  forallb Bullet.alive (Frame.bullets st') = true
  /\ forallb AmmoBox.alive (Frame.ammo_boxes st') = true
  /\ length (Frame.enemies st') = length (Frame.enemies st).
Proof.
  unfold Frame.simulate. intros H.
  destruct (Frame.step_bullets m dt _ _) as [r | e] eqn:Eb; [|discriminate H].
  cbn [bind] in H.
  destruct (mapM _ (snd r)) as [es | e] eqn:Ee; [|discriminate H].
  cbn [bind] in H.
  destruct (Frame.step_boxes hypot cam dt _ _) as [boxes ammo].
  assert (Hlen : length es = length (Frame.enemies st)).
  { rewrite (mapM_length _ _ _ Ee). apply (step_bullets_length _ _ _ _ _ Eb). }
  destruct (_ && _)%bool; injection H as <-; cbn.
  - split; [apply forallb_filter_same|]. split; [|exact Hlen].
    rewrite forallb_app, forallb_filter_same. reflexivity.
  - split; [apply forallb_filter_same|]. split; [|exact Hlen].
    apply forallb_filter_same.
Qed.

Lemma frame_cleanup_spec_witness :
  exists st',
    Frame.simulate norm1 MAP start_camera (1 / 60) (4.5, 4.5) hit_scene
    = Ok st'
    /\ forallb Bullet.alive (Frame.bullets st') = true
    /\ forallb AmmoBox.alive (Frame.ammo_boxes st') = true
    /\ length (Frame.enemies st') = 1%nat.
Proof.
  eexists. split; [vm_compute; reflexivity|].
  apply (frame_cleanup_spec norm1 MAP start_camera (1 / 60) (4.5, 4.5)
                            hit_scene).
  vm_compute. reflexivity.
Defined.

(** ** Wave manager: the state machine *)

Lemma wave_update_cases (now : Q) (wm : WaveManager.t) (dt : Q)
      (es : list Enemy.t) :
  WaveManager.wave_in_progress wm && WaveManager.between_waves wm = false ->
  let wm' := WaveManager.update now wm dt es in
  (* countdown still running *)
  (WaveManager.between_waves wm = true
   /\ ~ WaveManager.wave_countdown wm - dt <= 0
   /\ wm' = WaveManager.set_countdown wm (WaveManager.wave_countdown wm - dt))
  (* countdown over, or start-up: the next wave begins *)
  \/ ((WaveManager.between_waves wm = true
       /\ WaveManager.wave_countdown wm - dt <= 0
       \/ WaveManager.between_waves wm = false
          /\ WaveManager.wave_in_progress wm = false)
      /\ WaveManager.current_wave wm' = (WaveManager.current_wave wm + 1)%Z
      /\ WaveManager.enemies_spawned wm' = 0%Z
      /\ WaveManager.wave_in_progress wm' = true
      /\ WaveManager.between_waves wm' = false
      /\ WaveManager.wave_start_time wm' = now)
  (* wave running and cleared: the countdown begins *)
  \/ (WaveManager.wave_in_progress wm = true
      /\ (0 < WaveManager.enemies_spawned wm)%Z
      /\ WaveManager.alive_count es = 0%Z
      /\ wm' = WaveManager.start_countdown wm)
  (* wave running, nothing to do *)
  \/ (WaveManager.wave_in_progress wm = true
      /\ ((WaveManager.enemies_spawned wm <= 0)%Z
          \/ WaveManager.alive_count es <> 0%Z)
      /\ wm' = wm).
Proof.
  intros Hexcl. unfold WaveManager.update.
  destruct wm as [w sp ip bw st cd du]. cbn in *.
  destruct bw.
  - rewrite andb_true_r in Hexcl. subst ip. cbn.
    destruct (Qle_bool (cd - dt) 0) eqn:E; cbn.
    + right. left. apply Qle_bool_iff in E. repeat split; auto.
    + left. repeat split; auto.
      intros H. apply Qle_bool_iff in H. congruence.
  - destruct ip; cbn.
    + destruct (Z.ltb_spec 0 sp) as [Hsp | Hsp]; cbn.
      * destruct (Z.eqb_spec (WaveManager.alive_count es) 0) as [Ha | Ha].
        -- right. right. left. repeat split; auto.
        -- right. right. right. repeat split; auto.
      * right. right. right. repeat split; auto.
    + right. left. repeat split; auto.
Qed.

(** X1. As long as the two phase flags are not both set, [update] leaves
    exactly one of them set: the manager is either running a wave or counting
    down, never both and never neither. *)
Theorem wave_update_phase_exclusive (now : Q) (wm : WaveManager.t) (dt : Q)
        (es : list Enemy.t) :
  WaveManager.wave_in_progress wm && WaveManager.between_waves wm = false ->
  let wm' := WaveManager.update now wm dt es in
  xorb (WaveManager.wave_in_progress wm') (WaveManager.between_waves wm')
  = true.
Proof.
  intros Hexcl wm'.
  destruct (wave_update_cases now wm dt es Hexcl)
    as [(Hb & _ & H) | [(_ & _ & _ & Hi & Hb & _)
                       | [(Hi & _ & _ & H) | (Hi & _ & H)]]];
    fold wm' in H || fold wm' in Hi, Hb.
  - rewrite H. cbn. rewrite Hb in *. rewrite andb_true_r in Hexcl.
    rewrite Hexcl. reflexivity.
  - rewrite Hi, Hb. reflexivity.
  - rewrite H. reflexivity.
  - rewrite H, Hi in *. cbn in Hexcl. rewrite Hexcl. reflexivity.
Qed.

Lemma wave_update_phase_exclusive_witness :
  xorb (WaveManager.wave_in_progress
          (WaveManager.update 7 WaveManager.init 0.02 []))
       (WaveManager.between_waves
          (WaveManager.update 7 WaveManager.init 0.02 []))
  = true.
Proof.
  apply (wave_update_phase_exclusive 7 WaveManager.init 0.02 []).
  reflexivity.
Defined.

(** [update] never lowers the wave number and raises it by at most one,
    whatever the state it is called in. *)
Lemma wave_number_step (now : Q) (wm : WaveManager.t) (dt : Q)
        (es : list Enemy.t) :
  (WaveManager.current_wave wm
   <= WaveManager.current_wave (WaveManager.update now wm dt es)
   <= WaveManager.current_wave wm + 1)%Z.
Proof.
  unfold WaveManager.update.
  destruct wm as [w sp ip bw st cd du]. cbn.
  destruct bw; cbn.
  - destruct (Qle_bool (cd - dt) 0); cbn.
    + lia.
    + destruct ip; cbn.
      * destruct (0 <? sp)%Z; cbn;
          [destruct (WaveManager.alive_count es =? 0)%Z|]; cbn; lia.
      * lia.
  - destruct ip; cbn.
    + destruct (0 <? sp)%Z; cbn;
        [destruct (WaveManager.alive_count es =? 0)%Z|]; cbn; lia.
    + lia.
Qed.

(** X2. Start-up: called with neither flag set, [update] goes straight to
    the next wave, running, with nothing spawned yet, whatever [dt] and the
    enemy list are; from the fresh manager this is wave 1 with a target of
    3 enemies of health 1 at speed factor 1. *)
Theorem wave_bootstrap (now : Q) (wm : WaveManager.t) (dt : Q)
        (es : list Enemy.t) :
  WaveManager.wave_in_progress wm = false ->
  WaveManager.between_waves wm = false ->
  WaveManager.update now wm dt es = WaveManager.start_next_wave now wm
  /\ (wm = WaveManager.init ->
      let wm' := WaveManager.update now wm dt es in
      WaveManager.current_wave wm' = 1%Z
      /\ WaveManager.wave_in_progress wm' = true
      /\ WaveManager.get_enemies_for_wave wm' = 3%Z
      /\ WaveManager.get_enemy_health wm' = 1%Z
      /\ WaveManager.get_enemy_speed_multiplier wm' == 1).
Proof.
  intros Hi Hb.
  assert (H : WaveManager.update now wm dt es
              = WaveManager.start_next_wave now wm).
  { unfold WaveManager.update.
    destruct wm as [w sp ip bw st cd du]. cbn in Hi, Hb. subst ip bw.
    reflexivity. }
  split; [exact H|].
  intros ->. cbv zeta. rewrite H. repeat split.
Qed.

Lemma wave_bootstrap_witness :
  WaveManager.current_wave (WaveManager.update 7 WaveManager.init 0.02 [])
  = 1%Z.
Proof.
  destruct (wave_bootstrap 7 WaveManager.init 0.02 [] eq_refl eq_refl)
    as [_ H].
  exact (proj1 (H eq_refl)).
Defined.

(** X3. A running wave that has spawned something ends exactly when no
    enemy of the list is alive: then the countdown starts at
    [countdown_duration] and the wave number and the spawn counter stay;
    while an enemy is alive, or before anything was spawned, [update]
    changes nothing. *)
Theorem wave_end_transition (now : Q) (wm : WaveManager.t) (dt : Q)
        (es : list Enemy.t) :
  WaveManager.wave_in_progress wm = true ->
  WaveManager.between_waves wm = false ->
  let wm' := WaveManager.update now wm dt es in
  ((0 < WaveManager.enemies_spawned wm)%Z ->
   forallb (fun e => negb (Enemy.alive e)) es = true ->
   wm' = WaveManager.start_countdown wm
   /\ WaveManager.between_waves wm' = true
   /\ WaveManager.wave_in_progress wm' = false
   /\ WaveManager.wave_countdown wm' = WaveManager.countdown_duration wm
   /\ WaveManager.current_wave wm' = WaveManager.current_wave wm)
  /\ (existsb Enemy.alive es = true -> wm' = wm)
  /\ ((WaveManager.enemies_spawned wm <= 0)%Z -> wm' = wm).
Proof.
  intros Hi Hb wm'.
  assert (Hexcl : WaveManager.wave_in_progress wm
                  && WaveManager.between_waves wm = false)
    by (rewrite Hi, Hb; reflexivity).
  assert (Hcount : forall l,
             WaveManager.alive_count l = 0%Z
             <-> forallb (fun e => negb (Enemy.alive e)) l = true).
  { unfold WaveManager.alive_count. induction l as [| e l IH]; cbn.
    - tauto.
    - destruct (Enemy.alive e); cbn.
      + split; [lia | discriminate].
      + exact IH. }
  assert (Hex : forall l,
             existsb Enemy.alive l = true ->
             forallb (fun e => negb (Enemy.alive e)) l = false).
  { induction l as [| e l IH]; cbn; [discriminate|].
    destruct (Enemy.alive e); cbn; auto. }
  destruct (wave_update_cases now wm dt es Hexcl)
    as [(Hb' & _) | [([(Hb' & _) | (_ & Hi')] & _)
                    | [(_ & Hsp & Ha & H) | (_ & Hc & H)]]];
    try congruence; fold wm' in H.
  - split; [|split].
    + intros _ _. rewrite H. repeat split.
    + intros Hal. apply Hex in Hal. apply Hcount in Ha. congruence.
    + intros Hle. lia.
  - split; [|split].
    + intros Hsp Hdead. exfalso.
      destruct Hc as [Hc | Hc]; [lia|]. apply Hcount in Hdead. tauto.
    + intros _. exact H.
    + intros _. exact H.
Qed.

Lemma wave_end_transition_witness :
  let wm := WaveManager.mk 2 5 true false 0 0 5 in
  let dead := fst (Enemy.take_damage (Enemy.init 5.2 10.5 1 1) 1) in
  WaveManager.update 7 wm 0.02 [dead] = WaveManager.start_countdown wm
  /\ WaveManager.update 7 wm 0.02 [Enemy.init 5.2 10.5 1 1] = wm.
Proof.
  intros wm dead.
  destruct (wave_end_transition 7 wm 0.02 [dead] eq_refl eq_refl)
    as (H1 & _ & _).
  destruct (wave_end_transition 7 wm 0.02 [Enemy.init 5.2 10.5 1 1]
                                eq_refl eq_refl) as (_ & H2 & _).
  split.
  - apply H1; [vm_compute; reflexivity | reflexivity].
  - apply H2. reflexivity.
Defined.

(** X4. Between waves [update] only lowers the countdown by [dt] while it
    stays positive; as soon as it reaches zero or less the next wave starts:
    the wave number goes up by one, the spawn counter is reset and the start
    time is taken. *)
Theorem wave_countdown_transition (now : Q) (wm : WaveManager.t) (dt : Q)
        (es : list Enemy.t) :
  WaveManager.between_waves wm = true ->
  WaveManager.wave_in_progress wm = false ->
  let wm' := WaveManager.update now wm dt es in
  (0 < WaveManager.wave_countdown wm - dt ->
   wm' = WaveManager.set_countdown wm (WaveManager.wave_countdown wm - dt))
  /\ (WaveManager.wave_countdown wm - dt <= 0 ->
      WaveManager.current_wave wm' = (WaveManager.current_wave wm + 1)%Z
      /\ WaveManager.enemies_spawned wm' = 0%Z
      /\ WaveManager.wave_in_progress wm' = true
      /\ WaveManager.between_waves wm' = false
      /\ WaveManager.wave_start_time wm' = now).
Proof.
  intros Hb Hi wm'.
  assert (Hexcl : WaveManager.wave_in_progress wm
                  && WaveManager.between_waves wm = false)
    by (rewrite Hi, Hb; reflexivity).
  destruct (wave_update_cases now wm dt es Hexcl)
    as [(_ & Hpos & H)
       | [([(_ & Hle) | (Hb' & _)] & H) | [(Hi' & _) | (Hi' & _)]]];
    try congruence; fold wm' in H.
  - split; [intros _; exact H|]. intros Hle. tauto.
  - split; [|intros _; exact H].
    intros Hpos. exfalso. lra.
Qed.

Lemma wave_countdown_transition_witness :
  let wm := WaveManager.mk 2 5 false true 0 0.01 5 in
  WaveManager.current_wave (WaveManager.update 7 wm 0.02 []) = 3%Z
  /\ WaveManager.update 7 wm 0.005 []
     = WaveManager.set_countdown wm (0.01 - 0.005).
Proof.
  intros wm.
  destruct (wave_countdown_transition 7 wm 0.02 [] eq_refl eq_refl)
    as (_ & H1).
  destruct (wave_countdown_transition 7 wm 0.005 [] eq_refl eq_refl)
    as (H2 & _).
  split.
  - apply H1. vm_compute. discriminate.
  - apply H2. reflexivity.
Defined.

(** ** Wave manager: spawning and tuning *)

Lemma spawn_loop_spec (pos : nat -> Q * Q) (wm0 : WaveManager.t) (n : nat) :
  forall (i : nat) (wm : WaveManager.t) (es : list Enemy.t),
    WaveManager.spawn_loop pos (WaveManager.get_enemy_health wm0)
                           (WaveManager.get_enemy_speed_multiplier wm0)
                           n i wm es
    = (wave_with_spawned wm (WaveManager.enemies_spawned wm + Z.of_nat n),
       es ++ map (spawned_at pos wm0) (seq i n)).
Proof.
  induction n as [| n IH]; intros i wm es.
  - cbn. rewrite app_nil_r, Z.add_0_r. destruct wm; reflexivity.
  - cbn [WaveManager.spawn_loop seq map].
    destruct (pos i) as [x y] eqn:Ep.
    rewrite IH. f_equal.
    + destruct wm; unfold wave_with_spawned; cbn. f_equal. lia.
    + rewrite <- app_assoc. cbn. unfold spawned_at at 2. rewrite Ep.
      reflexivity.
Qed.

Lemma spawn_enemies_char (pos : nat -> Q * Q) (wm : WaveManager.t)
      (es : list Enemy.t) :
  WaveManager.spawn_enemies pos wm es
  = if WaveManager.wave_in_progress wm then
      (wave_with_spawned
         wm (Z.max (WaveManager.enemies_spawned wm)
                   (WaveManager.get_enemies_for_wave wm)),
       es ++ map (spawned_at pos wm)
                 (seq 0 (Z.to_nat (WaveManager.get_enemies_for_wave wm
                                   - WaveManager.enemies_spawned wm))))
    else (wm, es).
Proof.
  unfold WaveManager.spawn_enemies.
  destruct (WaveManager.wave_in_progress wm); cbn [negb]; [|reflexivity].
  remember (WaveManager.get_enemies_for_wave wm) as target eqn:Ht.
  destruct (Z.leb_spec (target - WaveManager.enemies_spawned wm) 0)
    as [Hle | Hgt].
  - replace (Z.to_nat _) with 0%nat by lia.
    cbn [seq map]. rewrite app_nil_r. f_equal.
    rewrite Z.max_l by lia. destruct wm; reflexivity.
  - rewrite spawn_loop_spec. f_equal. f_equal. lia.
Qed.

(** X5. While a wave runs, [spawn_enemies] tops the spawn counter up to the
    wave's target: it appends exactly [target - spawned] enemies (none when
    the counter is already there), each alive with the wave's health and
    speed, after the enemies already in the list, and touches nothing else.
    Called again right away it does nothing.  Outside a wave it does
    nothing at all. *)
Theorem spawn_enemies_spec (pos : nat -> Q * Q) (wm : WaveManager.t)
        (es : list Enemy.t) :
  let target := WaveManager.get_enemies_for_wave wm in
  let n := Z.to_nat (target - WaveManager.enemies_spawned wm) in
  let r := WaveManager.spawn_enemies pos wm es in
  (WaveManager.wave_in_progress wm = false -> r = (wm, es))
  /\ (WaveManager.wave_in_progress wm = true ->
      fst r = wave_with_spawned
                wm (Z.max (WaveManager.enemies_spawned wm) target)
      /\ snd r = es ++ map (spawned_at pos wm) (seq 0 n)
      /\ Forall (fun e => Enemy.alive e = true
                          /\ Enemy.health e = WaveManager.get_enemy_health wm
                          /\ Enemy.speed e
                             = 1.4 * WaveManager.get_enemy_speed_multiplier wm)
                (map (spawned_at pos wm) (seq 0 n))
      /\ forall pos', WaveManager.spawn_enemies pos' (fst r) (snd r) = r).
Proof.
  intros target n r. subst r. rewrite spawn_enemies_char. split.
  - intros ->. reflexivity.
  - intros Hi. rewrite Hi. cbn [fst snd].
    split; [reflexivity|]. split; [reflexivity|]. split.
    + apply Forall_forall. intros e He.
      apply List.in_map_iff in He as (j & <- & _).
      repeat split.
    + intros pos'. rewrite spawn_enemies_char.
      cbn [wave_with_spawned WaveManager.wave_in_progress
           WaveManager.enemies_spawned].
      rewrite Hi.
      change (WaveManager.get_enemies_for_wave (wave_with_spawned wm _))
        with target.
      replace (Z.to_nat (target - Z.max _ target)) with 0%nat by lia.
      cbn [seq map]. rewrite app_nil_r. f_equal.
      unfold wave_with_spawned. cbn. f_equal. lia.
Qed.

Lemma spawn_enemies_spec_witness :
  let wm := WaveManager.mk 2 3 true false 0 0 5 in
  let pos := fun j : nat => (inject_Z (Z.of_nat j) + 5.5, 4.5) in
  length (snd (WaveManager.spawn_enemies pos wm [])) = 2%nat
  /\ WaveManager.enemies_spawned (fst (WaveManager.spawn_enemies pos wm []))
     = 5%Z.
Proof.
  intros wm pos.
  destruct (spawn_enemies_spec pos wm []) as (_ & H).
  destruct (H eq_refl) as (H1 & H2 & _).
  rewrite H1, H2. split; reflexivity.
Defined.

(** X6. The per-wave tuning never goes down as the wave number goes up:
    target count, health and speed factor are non-decreasing; the speed
    factor never exceeds 2 and is 2 from wave 11 on; from wave 1 on there
    are at least 3 enemies of health at least 1 and speed factor at least
    1. *)
Theorem wave_tuning_monotone (wm1 wm2 : WaveManager.t) :
  (WaveManager.current_wave wm1 <= WaveManager.current_wave wm2)%Z ->
  (WaveManager.get_enemies_for_wave wm1
   <= WaveManager.get_enemies_for_wave wm2)%Z
  /\ (WaveManager.get_enemy_health wm1 <= WaveManager.get_enemy_health wm2)%Z
  /\ WaveManager.get_enemy_speed_multiplier wm1
     <= WaveManager.get_enemy_speed_multiplier wm2
  /\ WaveManager.get_enemy_speed_multiplier wm2 <= 2
  /\ ((11 <= WaveManager.current_wave wm2)%Z ->
      WaveManager.get_enemy_speed_multiplier wm2 == 2)
  /\ ((1 <= WaveManager.current_wave wm1)%Z ->
      (3 <= WaveManager.get_enemies_for_wave wm1)%Z
      /\ (1 <= WaveManager.get_enemy_health wm1)%Z
      /\ 1 <= WaveManager.get_enemy_speed_multiplier wm1).
Proof.
  intros Hle.
  unfold WaveManager.get_enemies_for_wave, WaveManager.get_enemy_health,
    WaveManager.get_enemy_speed_multiplier.
  set (w1 := WaveManager.current_wave wm1) in *.
  set (w2 := WaveManager.current_wave wm2) in *.
  assert (Hq : inject_Z (w1 - 1) <= inject_Z (w2 - 1))
    by (rewrite <- Zle_Qle; lia).
  rewrite !py_min_spec.
  split; [lia|]. split.
  { apply Z.add_le_mono_l, Z.div_le_mono; lia. }
  split.
  { apply Qplus_le_r, Q.min_le_compat_l.
    apply Qmult_le_compat_r; [exact Hq | discriminate]. }
  split.
  { pose proof (Q.le_min_l 1 (inject_Z (w2 - 1) * 0.1)). lra. }
  split.
  { intros H11.
    assert (H10 : inject_Z 10 <= inject_Z (w2 - 1))
      by (rewrite <- Zle_Qle; lia).
    change (inject_Z 10) with 10 in H10.
    rewrite Q.min_l; [reflexivity | lra]. }
  intros H1. split; [lia|]. split.
  { pose proof (Z.div_pos (w1 - 1) 3). lia. }
  assert (H0 : inject_Z 0 <= inject_Z (w1 - 1))
    by (rewrite <- Zle_Qle; lia).
  change (inject_Z 0) with 0 in H0.
  assert (0 <= Qmin 1 (inject_Z (w1 - 1) * 0.1)).
  { apply Q.min_glb; lra. }
  lra.
Qed.

Lemma wave_tuning_monotone_witness :
  let wm1 := WaveManager.mk 3 0 true false 0 0 5 in
  let wm2 := WaveManager.mk 12 0 true false 0 0 5 in
  (WaveManager.get_enemy_health wm1 <= WaveManager.get_enemy_health wm2)%Z
  /\ WaveManager.get_enemy_speed_multiplier wm2 == 2.
Proof.
  intros wm1 wm2.
  assert (H : (WaveManager.current_wave wm1
               <= WaveManager.current_wave wm2)%Z) by (cbn; lia).
  destruct (wave_tuning_monotone wm1 wm2 H) as (_ & Hh & _ & _ & H11 & _).
  split; [exact Hh|]. apply H11. cbn. lia.
Defined.

(** ** Movement against the grid *)

Lemma is_wall_defined (m : grid) (ix iy : Z) :
  rectangular m = true -> exists w, is_wall m ix iy = Ok w.
Proof.
  intros Hrect. unfold is_wall.
  destruct (in_map m ix iy) eqn:Hin.
  - destruct (cell_defined m ix iy Hrect Hin) as [v Hv].
    rewrite Hv. cbn. eexists. reflexivity.
  - eexists. reflexivity.
Qed.




(** X8. On a rectangular map [Bullet.update] raises nothing for a bullet
    whose position, velocity and time step are [moderate].  Whenever it
    returns, the velocity is unchanged; a bullet that is alive after the
    step was alive before, has moved by exactly velocity times [dt], and
    [is_wall] is false at its new position: the cell there is empty, or the
    position is outside the map, where nothing counts as a wall.  So a
    bullet that leaves the map is never stopped.  The height parameter
    stays at or below 0.65 once it is, and the age never goes down when
    [dt >= 0]. *)
Theorem bullet_update_stays_free (m : grid) (b : Bullet.t) (dt : Q) :
  (rectangular m = true ->
   moderate (Bullet.x b) -> moderate (Bullet.y b) ->
   moderate (Bullet.vx b) -> moderate (Bullet.vy b) -> moderate dt ->
   exists b', Bullet.update m b dt = Ok b')
  /\ (forall b',
        Bullet.update m b dt = Ok b' ->
        let nx := Bullet.x b + Bullet.vx b * dt in
        let ny := Bullet.y b + Bullet.vy b * dt in
        Bullet.vx b' = Bullet.vx b /\ Bullet.vy b' = Bullet.vy b
        /\ (Bullet.alive b' = true ->
            Bullet.alive b = true
            /\ is_wall m (py_int (Bullet.x b')) (py_int (Bullet.y b'))
               = Ok false)
        /\ (Bullet.alive b = true -> Bullet.alive b' = true ->
            Bullet.x b' = nx /\ Bullet.y b' = ny)
        /\ (Bullet.alive b = true ->
            in_map m (py_int nx) (py_int ny) = false ->
            Bullet.alive b' = true)
        /\ (Bullet.height_param b <= 0.65 -> Bullet.height_param b' <= 0.65)
        /\ (0 <= dt -> Bullet.age b <= Bullet.age b')).
Proof.
  split.
  - intros Hrect _ _ _ _ _. unfold Bullet.update.
    destruct (negb (Bullet.alive b)); [eexists; reflexivity|].
    match goal with
    | |- context [is_wall m ?a ?c] =>
        destruct (is_wall_defined m a c Hrect) as [w Hw]; rewrite Hw
    end.
    cbn [bind]. destruct w; eexists; reflexivity.
  - intros b' H nx ny. unfold Bullet.update in H.
    destruct (Bullet.alive b) eqn:Ha; cbn [negb] in H.
    + fold nx ny in H.
      destruct (is_wall m (py_int nx) (py_int ny)) as [w | e] eqn:Hw;
        cbn [bind] in H; [|discriminate H].
      destruct w; injection H as <-; cbn.
      * repeat split; auto; try discriminate.
        -- intros _ Hout. unfold is_wall in Hw. rewrite Hout in Hw.
           discriminate Hw.
        -- intros; lra.
      * repeat split; auto.
        -- intros _. apply py_min_le_l.
        -- intros; lra.
    + injection H as <-. rewrite Ha.
      repeat split; auto; try discriminate. intros; lra.
Qed.

Lemma bullet_update_stays_free_witness :
  exists b',
    Bullet.update MAP (Bullet.init 5 10.5 10 0) 0.02 = Ok b'
    /\ Bullet.alive b' = true
    /\ is_wall MAP (py_int (Bullet.x b')) (py_int (Bullet.y b')) = Ok false.
Proof.
  destruct (bullet_update_stays_free MAP (Bullet.init 5 10.5 10 0) 0.02)
    as (Hret & Hspec).
  destruct Hret as [b' Hb].
  - reflexivity.
  - vm_compute. discriminate.
  - vm_compute. discriminate.
  - vm_compute. discriminate.
  - vm_compute. discriminate.
  - vm_compute. discriminate.
  - exists b'. split; [exact Hb|].
    assert (E : Bullet.update MAP (Bullet.init 5 10.5 10 0) 0.02
                = Ok (Bullet.mk (5 + 10 * 0.02) (10.5 + 0 * 0.02) 10 0 true
                                (0 + 0.02)
                                (py_min 0.65 (0.2 + 0.35 * 0.02))))
      by reflexivity.
    assert (Hal : Bullet.alive b' = true).
    { rewrite E in Hb. injection Hb as <-. reflexivity. }
    split; [exact Hal|].
    apply (Hspec b' Hb). exact Hal.
Defined.

(** X9. The player's [try_move] never raises on a rectangular map and
    keeps each coordinate old or new.  Both axis tests read the old
    position, so the player is sure to end in a free cell only when the
    target cell shares its row or its column with the current cell; a
    diagonal step across a corner can end inside a wall, as from (1.9, 1.9)
    to (2.1, 2.1) on [MAP]. *)
Theorem player_try_move_spec (m : grid) (cam : camera) (nx ny : Q) :
  rectangular m = true ->
  (exists p,
      Player.try_move m cam nx ny = Ok p
      /\ (fst p = nx \/ fst p = player_x cam)
      /\ (snd p = ny \/ snd p = player_y cam)
      /\ (free m (player_x cam) (player_y cam) ->
          py_int nx = py_int (player_x cam)
          \/ py_int ny = py_int (player_y cam) ->
          free m (fst p) (snd p)))
  /\ (let corner := mkCamera 1.9 1.9 1 0 0 0.66 in
      free MAP 1.9 1.9
      /\ Player.try_move MAP corner 2.1 2.1 = Ok (2.1, 2.1)
      /\ is_wall MAP (py_int 2.1) (py_int 2.1) = Ok true).
Proof.
  intros Hrect. split; [|repeat split].
  unfold Player.try_move, free.
  destruct (is_wall_defined m (py_int nx) (py_int (player_y cam)) Hrect)
    as [wx Hx].
  destruct (is_wall_defined m (py_int (player_x cam)) (py_int ny) Hrect)
    as [wy Hy].
  rewrite Hx, Hy. cbn [bind].
  eexists. split; [reflexivity|]. cbn [fst snd].
  destruct wx, wy; cbn [negb]; repeat split; auto.
  intros Hfree [Hc | Hc].
  - rewrite Hc. exact Hy.
  - rewrite Hc. exact Hx.
Qed.

Lemma player_try_move_spec_witness :
  exists p,
    Player.try_move MAP start_camera 3.6 10.5 = Ok p
    /\ free MAP (fst p) (snd p).
Proof.
  destruct (player_try_move_spec MAP start_camera 3.6 10.5 eq_refl)
    as ((p & Hp & _ & _ & Hfree) & _).
  exists p. split; [exact Hp|].
  apply Hfree; [reflexivity | left; reflexivity].
Defined.

(** ** Combat resolution *)

Lemma hit_first_unfold (b : Bullet.t) (e : Enemy.t) (es : list Enemy.t) :
  Frame.hit_first b (e :: es)
  = if hittable b e then (fst (Enemy.take_damage e 1) :: es, true)
    else (e :: fst (Frame.hit_first b es), snd (Frame.hit_first b es)).
Proof.
  cbn [Frame.hit_first]. unfold hittable.
  destruct (Enemy.alive e && _)%bool; [reflexivity|].
  destruct (Frame.hit_first b es). reflexivity.
Qed.

(** X10. For one bullet the combat scan damages at most one enemy, and it is
    the first enemy of the list, in list order, that is alive and has the
    bullet in its circle: that enemy takes exactly one point of damage and
    every other entry is left as it was.  When no enemy qualifies the list
    is unchanged and the bullet is not used. *)
Theorem hit_first_spec (b : Bullet.t) (es : list Enemy.t) :
  let es' := fst (Frame.hit_first b es) in
  let used := snd (Frame.hit_first b es) in
  (used = false ->
   es' = es /\ Forall (fun e => hittable b e = false) es)
  /\ (used = true ->
      exists l1 e l2,
        es = l1 ++ e :: l2
        /\ Forall (fun e0 => hittable b e0 = false) l1
        /\ hittable b e = true
        /\ es' = l1 ++ fst (Enemy.take_damage e 1) :: l2
        /\ total_health es' = (total_health es - 1)%Z).
Proof.
  induction es as [| e es IH]; cbv zeta.
  - cbn. split; [auto | discriminate].
  - rewrite hit_first_unfold.
    destruct (hittable b e) eqn:Eh; cbn [fst snd].
    + split; [discriminate|]. intros _.
      exists [], e, es. cbn. repeat split; auto.
      unfold Enemy.take_damage.
      destruct (Enemy.health e - 1 <=? 0)%Z; cbn; lia.
    + cbv zeta in IH. destruct IH as [IHf IHt]. split.
      * intros Hu. destruct (IHf Hu) as [Heq Hall].
        split; [rewrite Heq; reflexivity|]. constructor; assumption.
      * intros Hu.
        destruct (IHt Hu) as (l1 & e1 & l2 & Hes & Hl1 & He1 & Hes' & Hsum).
        exists (e :: l1), e1, l2. rewrite Hes' in *. subst es.
        cbn. repeat split; auto.
        cbn in Hsum. unfold total_health in *. lia.
Qed.

Lemma hit_first_spec_witness :
  let b := Bullet.init 5.1 10.5 10 0 in
  let far := Enemy.init 9.5 4.5 1 1 in
  let near := Enemy.init 5.2 10.5 3 1 in
  snd (Frame.hit_first b [far; near; near]) = true
  /\ total_health (fst (Frame.hit_first b [far; near; near])) = 6%Z.
Proof.
  intros b far near.
  assert (Hu : snd (Frame.hit_first b [far; near; near]) = true)
    by reflexivity.
  destruct (hit_first_spec b [far; near; near]) as [_ H].
  destruct (H Hu) as (l1 & e & l2 & _ & _ & _ & _ & Hsum).
  split; [exact Hu | exact Hsum].
Defined.

Lemma hit_first_health (b : Bullet.t) (es : list Enemy.t) :
  total_health (fst (Frame.hit_first b es))
  = (total_health es - if snd (Frame.hit_first b es) then 1 else 0)%Z.
Proof.
  induction es as [| e es IH]; [reflexivity|].
  rewrite hit_first_unfold.
  destruct (hittable b e); cbn [fst snd total_health fold_right].
  - unfold Enemy.take_damage.
    destruct (Enemy.health e - 1 <=? 0)%Z; cbn; lia.
  - fold (total_health (fst (Frame.hit_first b es))).
    fold (total_health es). rewrite IH. lia.
Qed.

Lemma bullet_update_dead_count (m : grid) (b b1 : Bullet.t) (dt : Q) :
  Bullet.update m b dt = Ok b1 ->
  Bullet.alive b = false -> Bullet.alive b1 = false.
Proof.
  unfold Bullet.update. intros H Ha. rewrite Ha in H. cbn in H.
  injection H as <-. exact Ha.
Qed.

(** X11. The bullet pass keeps both lists at their length and never raises
    an enemy's health: the health taken from all enemies together is at
    most the number of bullets that were alive before the pass and are dead
    after it, so a bullet damages at most one enemy per tick and pays for
    it with its life. *)
Theorem step_bullets_spec (m : grid) (dt : Q) (bs : list Bullet.t) :
  forall (es : list Enemy.t) (r : list Bullet.t * list Enemy.t),
    Frame.step_bullets m dt bs es = Ok r ->
    length (fst r) = length bs
    /\ length (snd r) = length es
    /\ (0 <= total_health es - total_health (snd r)
        <= dead_bullets (fst r) - dead_bullets bs)%Z.
Proof.
  induction bs as [| b bs IH]; intros es r H.
  - injection H as <-. unfold dead_bullets. cbn [fst snd filter length].
    repeat split; lia.
  - cbn [Frame.step_bullets] in H.
    destruct (Bullet.update m b dt) as [b1 | err] eqn:Eup; [|discriminate H].
    cbn [bind] in H.
    pose proof (bullet_update_dead_count m b b1 dt Eup) as Hdead.
    pose proof (hit_first_health b1 es) as Hhit.
    pose proof (hit_first_length b1 es) as Hlen.
    destruct (Frame.hit_first b1 es) as [es1 used]. cbn [fst snd] in *.
    unfold dead_bullets in *. cbn [filter].
    destruct (Bullet.alive b1) eqn:Ea1; cbn [negb] in H; cbv iota beta in H.
    + destruct (Frame.step_bullets m dt bs es1) as [r1 | err] eqn:Er;
        cbn [bind] in H; [|discriminate H].
      injection H as <-. cbn [fst snd].
      destruct (IH _ _ Er) as (Hl1 & Hl2 & Hh).
      assert (Hb : Bullet.alive b = true).
      { destruct (Bullet.alive b); [reflexivity|].
        discriminate (Hdead eq_refl). }
      rewrite Hb. cbn [negb length].
      destruct used.
      * cbn [filter Frame.consume Bullet.alive negb length].
        repeat split; try lia.
      * cbn [filter]. rewrite Ea1. cbn [negb].
        repeat split; try lia.
    + destruct (Frame.step_bullets m dt bs es) as [r1 | err] eqn:Er;
        cbn [bind] in H; [|discriminate H].
      injection H as <-. cbn [fst snd].
      destruct (IH _ _ Er) as (Hl1 & Hl2 & Hh).
      cbn [filter]. rewrite Ea1. cbn [negb length].
      destruct (Bullet.alive b); cbn [negb length]; repeat split; lia.
Qed.

Lemma step_bullets_spec_witness :
  exists r,
    Frame.step_bullets MAP (1 / 60) (Frame.bullets hit_scene)
                       (Frame.enemies hit_scene) = Ok r
    /\ length (fst r) = 1%nat
    /\ (0 <= total_health (Frame.enemies hit_scene) - total_health (snd r)
        <= dead_bullets (fst r) - dead_bullets (Frame.bullets hit_scene))%Z.
Proof.
  eexists. split; [vm_compute; reflexivity|].
  destruct (step_bullets_spec MAP (1 / 60) (Frame.bullets hit_scene)
                              (Frame.enemies hit_scene) _
                              ltac:(vm_compute; reflexivity))
    as (H1 & _ & H3).
  split; [exact H1 | exact H3].
Defined.

(** ** Ammunition *)

Lemma step_boxes_char (hypot : Q -> Q -> Q) (cam : camera) (dt : Q)
      (boxes : list AmmoBox.t) :
  forall ammo : Z,
    Frame.step_boxes hypot cam dt boxes ammo
    = (map (fun box => if in_reach hypot cam box then picked box else box)
           boxes,
       if existsb (in_reach hypot cam) boxes then 20%Z else ammo).
Proof.
  induction boxes as [| box boxes IH]; intros ammo; [reflexivity|].
  cbn [Frame.step_boxes map existsb].
  unfold AmmoBox.update, in_reach at 1 3.
  destruct (AmmoBox.alive box); cbn [negb andb].
  - destruct (Qle_bool _ _); cbn [orb].
    + rewrite IH. destruct (existsb _ boxes); reflexivity.
    + rewrite IH. reflexivity.
  - rewrite IH. reflexivity.
Qed.

(** X12. The ammo-box pass treats the boxes independently: a box is marked
    picked exactly when it is alive and the player is within its pickup
    distance (boundary included), every other box is left as it was, and
    [player_ammo] becomes 20 if at least one box was picked and keeps its
    value otherwise.  So no box comes back to life, the list keeps its
    length, and with no box in reach the pass changes nothing. *)
Theorem step_boxes_spec (hypot : Q -> Q -> Q) (cam : camera) (dt : Q)
        (boxes : list AmmoBox.t) (ammo : Z) :
  let r := Frame.step_boxes hypot cam dt boxes ammo in
  fst r = map (fun box => if in_reach hypot cam box then picked box else box)
              boxes
  /\ snd r = (if existsb (in_reach hypot cam) boxes then 20%Z else ammo)
  /\ length (fst r) = length boxes
  /\ length (filter AmmoBox.alive (fst r))
     = length (filter (fun box => AmmoBox.alive box
                                  && negb (in_reach hypot cam box)) boxes)
  /\ (existsb (in_reach hypot cam) boxes = false -> r = (boxes, ammo)).
Proof.
  intros r. subst r. rewrite step_boxes_char. cbn [fst snd].
  split; [reflexivity|]. split; [reflexivity|].
  split; [apply length_map|]. split.
  - induction boxes as [| box boxes IH]; [reflexivity|].
    cbn [map filter].
    destruct (in_reach hypot cam box) eqn:Er; cbn [negb].
    + cbn [picked AmmoBox.alive]. rewrite andb_false_r. exact IH.
    + rewrite andb_true_r. destruct (AmmoBox.alive box); cbn [length];
        rewrite IH; reflexivity.
  - intros Hnone. rewrite Hnone. f_equal.
    induction boxes as [| box boxes IH]; [reflexivity|].
    cbn [existsb] in Hnone. apply orb_false_iff in Hnone as [Hb Hrest].
    cbn [map]. rewrite Hb, (IH Hrest). reflexivity.
Qed.

Lemma step_boxes_spec_witness :
  let near := AmmoBox.init 4.2 10.5 in
  let far := AmmoBox.init 8.5 4.5 in
  snd (Frame.step_boxes norm1 start_camera 0.02 [far; near] 3) = 20%Z
  /\ Frame.step_boxes norm1 start_camera 0.02 [far] 3 = ([far], 3%Z).
Proof.
  intros near far.
  destruct (step_boxes_spec norm1 start_camera 0.02 [far; near] 3)
    as (_ & H1 & _).
  destruct (step_boxes_spec norm1 start_camera 0.02 [far] 3)
    as (_ & _ & _ & _ & H2).
  split; [rewrite H1; reflexivity | apply H2; reflexivity].
Defined.

Lemma filter_length_le {A : Type} (f : A -> bool) (l : list A) :
  (length (filter f l) <= length l)%nat.
Proof.
  induction l as [| a l IH]; cbn; [lia|].
  destruct (f a); cbn; lia.
Qed.

Lemma step_bullets_bullets_length (m : grid) (dt : Q) (bs : list Bullet.t) :
  forall es r,
    Frame.step_bullets m dt bs es = Ok r -> length (fst r) = length bs.
Proof.
  induction bs as [| b bs IH]; intros es r H.
  - injection H as <-. reflexivity.
  - cbn [Frame.step_bullets] in H.
    destruct (Bullet.update m b dt) as [b1 | e]; [|discriminate H].
    cbn [bind] in H.
    destruct (if negb (Bullet.alive b1) then _ else _) as [b2 es1].
    destruct (Frame.step_bullets m dt bs es1) as [r1 | e] eqn:E;
      cbn [bind] in H; [|discriminate H].
    injection H as <-. cbn. rewrite (IH _ _ E). reflexivity.
Qed.

Lemma simulate_shape (hypot : Q -> Q -> Q) (m : grid) (cam : camera)
      (dt : Q) (spawn : Q * Q) (st st' : Frame.state) :
  Frame.simulate hypot m cam dt spawn st = Ok st' ->
  exists r es,
    Frame.step_bullets m dt (Frame.bullets st) (Frame.enemies st) = Ok r
    /\ mapM (fun e => Enemy.update hypot m cam e dt) (snd r) = Ok es
    /\ Frame.bullets st' = filter Bullet.alive (fst r)
    /\ Frame.enemies st' = es
    /\ Frame.player_ammo st'
       = (if existsb (in_reach hypot cam) (Frame.ammo_boxes st)
          then 20%Z else Frame.player_ammo st)
    /\ let kept :=
         filter AmmoBox.alive
                (map (fun box => if in_reach hypot cam box
                                 then picked box else box)
                     (Frame.ammo_boxes st)) in
       Frame.ammo_boxes st' = kept
       \/ (Frame.ammo_boxes st'
           = kept ++ [AmmoBox.init (fst spawn) (snd spawn)]
           /\ (length kept < 3)%nat).
Proof.
  unfold Frame.simulate. intros H.
  destruct (Frame.step_bullets m dt _ _) as [r | e] eqn:Eb; [|discriminate H].
  cbn [bind] in H.
  destruct (mapM _ (snd r)) as [es | e] eqn:Ee; [|discriminate H].
  cbn [bind] in H.
  rewrite step_boxes_char in H.
  exists r, es.
  destruct (Qle_bool _ _ && _)%bool eqn:Esp; injection H as <-;
    cbn [Frame.player_ammo Frame.bullets Frame.enemies Frame.ammo_boxes].
  - apply andb_true_iff in Esp as [_ Hlt]. apply Z.ltb_lt in Hlt.
    split; [reflexivity|]. split; [exact Ee|]. repeat split.
    cbv zeta. right. split; [reflexivity | lia].
  - split; [reflexivity|]. split; [exact Ee|]. repeat split.
    cbv zeta. left. reflexivity.
Qed.

(** X13. One simulation phase sets [player_ammo] to 20 when an alive ammo
    box is within reach and leaves it alone otherwise, so a count in
    [0, 20] stays there.  It never adds a bullet, never removes an enemy,
    and adds at most one ammo box, and only while fewer than three are
    left: the number of boxes never exceeds the larger of 3 and what it
    was. *)
Theorem simulate_resources (hypot : Q -> Q -> Q) (m : grid) (cam : camera)
        (dt : Q) (spawn : Q * Q) (st st' : Frame.state) :
  Frame.simulate hypot m cam dt spawn st = Ok st' ->
  Frame.player_ammo st'
  = (if existsb (in_reach hypot cam) (Frame.ammo_boxes st)
     then 20%Z else Frame.player_ammo st)
  /\ ((0 <= Frame.player_ammo st <= 20)%Z ->
      (0 <= Frame.player_ammo st' <= 20)%Z)
  /\ (length (Frame.bullets st') <= length (Frame.bullets st))%nat
  /\ length (Frame.enemies st') = length (Frame.enemies st)
  /\ (length (Frame.ammo_boxes st')
      <= Nat.max 3 (length (Frame.ammo_boxes st)))%nat.
Proof.
  intros H.
  destruct (simulate_shape _ _ _ _ _ _ _ H)
    as (r & es & Eb & Ee & Hb & He & Ha & Hx).
  pose proof (step_bullets_bullets_length _ _ _ _ _ Eb) as Hlb.
  pose proof (step_bullets_length _ _ _ _ _ Eb) as Hle.
  pose proof (mapM_length _ _ _ Ee) as Hlm.
  pose proof (filter_length_le Bullet.alive (fst r)) as Hfb.
  cbv zeta in Hx.
  set (boxes1 := map _ (Frame.ammo_boxes st)) in Hx.
  pose proof (filter_length_le AmmoBox.alive boxes1) as Hfx.
  assert (Hl1 : length boxes1 = length (Frame.ammo_boxes st))
    by apply length_map.
  split; [exact Ha|]. split.
  { intros Hr. rewrite Ha. destruct (existsb _ _); lia. }
  split; [rewrite Hb; lia|]. split; [rewrite He; lia|].
  destruct Hx as [-> | [-> Hlt]].
  - lia.
  - rewrite length_app. cbn [length]. lia.
Qed.

Lemma simulate_resources_witness :
  exists st',
    Frame.simulate norm1 MAP start_camera (1 / 60) (4.5, 4.5) hit_scene
    = Ok st'
    /\ (0 <= Frame.player_ammo st' <= 20)%Z
    /\ length (Frame.enemies st') = 1%nat.
Proof.
  eexists. split; [vm_compute; reflexivity|].
  destruct (simulate_resources norm1 MAP start_camera (1 / 60) (4.5, 4.5)
                               hit_scene _ ltac:(vm_compute; reflexivity))
    as (_ & Hammo & _ & Hen & _).
  split; [apply Hammo; vm_compute; split; discriminate | exact Hen].
Defined.

Lemma fire_spec (cam : camera) (st : Frame.state) :
  fst (Player.fire cam st)
  = if (0 <? Frame.player_ammo st)%Z
    then Frame.mk (Frame.bullets st ++ [muzzle_bullet cam])
                  (Frame.enemies st) (Frame.ammo_boxes st)
                  (Frame.player_ammo st - 1)
                  (Frame.ammo_box_spawn_timer st)
    else st.
Proof.
  unfold Player.fire. destruct (0 <? Frame.player_ammo st)%Z; reflexivity.
Qed.

(** X14. Firing costs one round per shot and stops at zero: after [n] fire
    events a non-negative ammo count [a] is [max(0, a - n)], never negative,
    and exactly [min(n, a)] bullets were added behind the existing ones,
    each alive, 0.4 ahead of the player and moving at 10 units per second
    along the view direction.  Enemies, ammo boxes and the spawn timer are
    not touched. *)
Theorem shots_spec (cam : camera) (n : nat) (st : Frame.state) :
  (0 <= Frame.player_ammo st)%Z ->
  shots n cam st
  = Frame.mk (Frame.bullets st
              ++ repeat (muzzle_bullet cam)
                        (Nat.min n (Z.to_nat (Frame.player_ammo st))))
             (Frame.enemies st) (Frame.ammo_boxes st)
             (Z.max 0 (Frame.player_ammo st - Z.of_nat n))
             (Frame.ammo_box_spawn_timer st).
Proof.
  intros Hpos. induction n as [| n IH].
  - cbn. rewrite app_nil_r. rewrite Z.max_r by lia.
    rewrite Z.sub_0_r. destruct st; reflexivity.
  - change (shots (S n) cam st)
      with (fst (Player.fire cam (shots n cam st))).
    rewrite IH, fire_spec.
    cbn [Frame.player_ammo Frame.bullets Frame.enemies Frame.ammo_boxes
         Frame.ammo_box_spawn_timer].
    destruct (Z.ltb_spec 0 (Z.max 0 (Frame.player_ammo st - Z.of_nat n)))
      as [Hleft | Hnone].
    + f_equal; [|lia].
      rewrite <- app_assoc. f_equal.
      replace (Nat.min (S n) (Z.to_nat (Frame.player_ammo st)))
        with (S (Nat.min n (Z.to_nat (Frame.player_ammo st)))) by lia.
      replace (Nat.min n (Z.to_nat (Frame.player_ammo st))) with n by lia.
      symmetry. apply (repeat_cons n (muzzle_bullet cam)).
    + f_equal; [|lia].
      f_equal. f_equal. lia.
Qed.

Lemma shots_spec_witness :
  let st := Frame.mk [] [] [] 2 0 in
  Frame.player_ammo (shots 5 start_camera st) = 0%Z
  /\ length (Frame.bullets (shots 5 start_camera st)) = 2%nat.
Proof.
  intros st.
  assert (H : (0 <= Frame.player_ammo st)%Z) by (cbn; lia).
  rewrite (shots_spec start_camera 5 st H).
  split; reflexivity.
Defined.

(** ** The frame loop *)

Lemma shots_ammo_bounds (cam : camera) (n : nat) (st : Frame.state) :
  (0 <= Frame.player_ammo st)%Z ->
  (0 <= Frame.player_ammo (shots n cam st) <= Frame.player_ammo st)%Z.
Proof.
  intros Hpos. induction n as [| n IH]; [cbn; lia|].
  change (shots (S n) cam st) with (fst (Player.fire cam (shots n cam st))).
  rewrite fire_spec.
  destruct (Z.ltb_spec 0 (Frame.player_ammo (shots n cam st))); cbn; lia.
Qed.

Lemma shots_keep (cam : camera) (n : nat) (st : Frame.state) :
  Frame.enemies (shots n cam st) = Frame.enemies st
  /\ Frame.ammo_boxes (shots n cam st) = Frame.ammo_boxes st
  /\ Frame.ammo_box_spawn_timer (shots n cam st)
     = Frame.ammo_box_spawn_timer st.
Proof.
  induction n as [| n IH]; [cbn; auto|].
  change (shots (S n) cam st) with (fst (Player.fire cam (shots n cam st))).
  rewrite fire_spec.
  destruct (0 <? Frame.player_ammo (shots n cam st))%Z; cbn; exact IH.
Qed.

Lemma shots_shift (cam : camera) (n : nat) (st : Frame.state) :
  shots (S n) cam st = shots n cam (fst (Player.fire cam st)).
Proof.
  induction n as [| n IH]; [reflexivity|].
  change (shots (S (S n)) cam st)
    with (fst (Player.fire cam (shots (S n) cam st))).
  rewrite IH. reflexivity.
Qed.

Lemma shoot_char (w : Main.world) :
  Main.cam (Main.shoot w) = Main.cam w
  /\ Main.wave_manager (Main.shoot w) = Main.wave_manager w
  /\ Main.frame (Main.shoot w) = fst (Player.fire (Main.cam w) (Main.frame w))
  /\ Main.running (Main.shoot w) = Main.running w.
Proof.
  unfold Main.shoot, Player.fire.
  destruct (0 <? Frame.player_ammo (Main.frame w))%Z; cbn; auto.
Qed.

Lemma events_char (evs : list Main.event) :
  forall w : Main.world,
    let w' := fold_left Main.handle_event evs w in
    Main.cam w' = Main.cam w
    /\ Main.wave_manager w' = Main.wave_manager w
    /\ Main.frame w'
       = shots (length (filter is_fire evs)) (Main.cam w) (Main.frame w)
    /\ Main.running w'
       = Main.running w && negb (existsb is_quit evs).
Proof.
  induction evs as [| ev evs IH]; intros w; cbv zeta.
  - cbn. rewrite andb_true_r. auto.
  - cbn [fold_left].
    destruct (IH (Main.handle_event w ev)) as (Hc & Hw & Hf & Hr).
    rewrite Hc, Hw, Hf, Hr. clear Hc Hw Hf Hr.
    destruct (shoot_char w) as (Sc & Sw & Sf & Sr).
    destruct ev; cbn [Main.handle_event filter is_fire is_quit existsb
                      length orb negb];
      rewrite ?Sc, ?Sw, ?Sf, ?Sr, ?shots_shift; cbn [Main.stop Main.cam
        Main.wave_manager Main.frame Main.running];
      rewrite ?andb_false_r; auto.
Qed.

(** X15. The event loop of a frame: fire events ([SPACE] or the left mouse
    button) act like that many shots in a row, so the ammo count drops by at
    most one per fire event and never below zero; a [QUIT] or [ESC] event
    anywhere in the queue clears [running] and nothing sets it again; other
    events change nothing.  No event touches the camera, the wave manager,
    the enemies or the ammo boxes. *)
Theorem events_spec (evs : list Main.event) (w : Main.world) :
  (0 <= ammo_of w)%Z ->
  let w' := fold_left Main.handle_event evs w in
  Main.frame w'
  = shots (length (filter is_fire evs)) (Main.cam w) (Main.frame w)
  /\ Main.running w' = Main.running w && negb (existsb is_quit evs)
  /\ Main.cam w' = Main.cam w
  /\ Main.wave_manager w' = Main.wave_manager w
  /\ Frame.enemies (Main.frame w') = Frame.enemies (Main.frame w)
  /\ Frame.ammo_boxes (Main.frame w') = Frame.ammo_boxes (Main.frame w)
  /\ (0 <= ammo_of w' <= ammo_of w)%Z
  /\ (ammo_of w - Z.of_nat (length (filter is_fire evs)) <= ammo_of w')%Z.
Proof.
  intros Hpos w'.
  destruct (events_char evs w) as (Hc & Hw & Hf & Hr). fold w' in Hc, Hw, Hf, Hr.
  destruct (shots_keep (Main.cam w) (length (filter is_fire evs))
                       (Main.frame w)) as (He & Hx & _).
  pose proof (shots_ammo_bounds (Main.cam w) (length (filter is_fire evs))
                                (Main.frame w) Hpos) as Hb.
  unfold ammo_of in *. rewrite Hf.
  repeat split; auto; try lia.
  clear Hf Hb He Hx.
  induction (length (filter is_fire evs)) as [| n IH]; [cbn; lia|].
  change (shots (S n) (Main.cam w) (Main.frame w))
    with (fst (Player.fire (Main.cam w) (shots n (Main.cam w) (Main.frame w)))).
  rewrite fire_spec.
  destruct (0 <? Frame.player_ammo (shots n (Main.cam w) (Main.frame w)))%Z;
    cbn [Frame.player_ammo]; lia.
Qed.

Lemma events_spec_witness :
  let w := Main.initial 0.66 (4.5, 4.5) in
  let evs := [Main.KEYDOWN_SPACE; Main.other_event; Main.MOUSEBUTTONDOWN_1;
              Main.KEYDOWN_ESCAPE] in
  ammo_of (fold_left Main.handle_event evs w) = 18%Z
  /\ Main.running (fold_left Main.handle_event evs w) = false.
Proof.
  intros w evs.
  assert (H : (0 <= ammo_of w)%Z) by (vm_compute; discriminate).
  destruct (events_spec evs w H) as (Hf & Hr & _).
  unfold ammo_of. rewrite Hf, Hr. split; reflexivity.
Defined.

Lemma tick_inv (hy : Q -> Q -> Q) (cos sin : Q -> Q) (m : grid)
      (i : Main.input) (w w' : Main.world) :
  Main.tick hy cos sin m i w = Ok w' ->
  ((0 <= ammo_of w <= 20)%Z -> (0 <= ammo_of w' <= 20)%Z)
  /\ (wave_of w <= wave_of w' <= wave_of w + 1)%Z
  /\ (length (Frame.enemies (Main.frame w))
      <= length (Frame.enemies (Main.frame w')))%nat
  /\ (length (Frame.ammo_boxes (Main.frame w'))
      <= Nat.max 3 (length (Frame.ammo_boxes (Main.frame w))))%nat
  /\ Main.running w'
     = Main.running w && negb (existsb is_quit (Main.events i)).
Proof.
  unfold Main.tick. intros H.
  destruct (events_char (Main.events i) w) as (Hc & Hw & Hf & Hr).
  cbv zeta in Hc, Hw, Hf, Hr.
  set (w1 := fold_left Main.handle_event (Main.events i) w) in *.
  destruct (Player.handle_input cos sin m _ _ _) as [cam1 | e];
    cbn [bind] in H; [|discriminate H].
  rewrite spawn_enemies_char in H.
  pose proof (wave_number_step (Main.now i) (Main.wave_manager w1)
                               (Main.dt i) (Frame.enemies (Main.frame w1)))
    as Hwave.
  set (wm1 := WaveManager.update _ _ _ _) in *.
  destruct (shots_keep (Main.cam w) (length (filter is_fire (Main.events i)))
                       (Main.frame w)) as (Hen & Hbx & _).
  rewrite <- Hf in Hen, Hbx.
  assert (Hsim : forall wm2 es2 st3,
             Frame.simulate hy m cam1 (Main.dt i) (Main.box_pos i)
               (Frame.mk (Frame.bullets (Main.frame w1)) es2
                         (Frame.ammo_boxes (Main.frame w1))
                         (Frame.player_ammo (Main.frame w1))
                         (Frame.ammo_box_spawn_timer (Main.frame w1)))
             = Ok st3 ->
             WaveManager.current_wave wm2 = WaveManager.current_wave wm1 ->
             (length (Frame.enemies (Main.frame w)) <= length es2)%nat ->
             forall f r,
               w' = Main.mk cam1 wm2 st3 (Main.running w1) f r ->
               ((0 <= ammo_of w <= 20)%Z -> (0 <= ammo_of w' <= 20)%Z)
               /\ (wave_of w <= wave_of w' <= wave_of w + 1)%Z
               /\ (length (Frame.enemies (Main.frame w))
                   <= length (Frame.enemies (Main.frame w')))%nat
               /\ (length (Frame.ammo_boxes (Main.frame w'))
                   <= Nat.max 3 (length (Frame.ammo_boxes (Main.frame w))))%nat
               /\ Main.running w'
                  = Main.running w
                    && negb (existsb is_quit (Main.events i))).
  { intros wm2 es2 st3 Es Hcw Hes f r ->.
    destruct (simulate_shape _ _ _ _ _ _ _ Es)
      as (rb & es & Eb & Ee & _ & He & Ha & Hx).
    cbn [Frame.bullets Frame.enemies Frame.ammo_boxes Frame.player_ammo] in *.
    pose proof (step_bullets_length _ _ _ _ _ Eb) as Hle.
    pose proof (mapM_length _ _ _ Ee) as Hlm.
    unfold ammo_of, wave_of.
    cbn [Main.frame Main.wave_manager Main.running].
    split.
    { intros Hr0.
      assert (Hb : (0 <= Frame.player_ammo (Main.frame w1)
                    <= Frame.player_ammo (Main.frame w))%Z).
      { rewrite Hf. apply shots_ammo_bounds. exact (proj1 Hr0). }
      rewrite Ha. unfold ammo_of in Hr0.
      destruct (existsb (in_reach hy cam1) _); clear - Hr0 Hb; lia. }
    split; [rewrite Hcw, <- Hw; exact Hwave|].
    split; [rewrite He; lia|].
    split; [|exact Hr].
    cbv zeta in Hx.
    set (boxes1 := map _ (Frame.ammo_boxes (Main.frame w1))) in Hx.
    pose proof (filter_length_le AmmoBox.alive boxes1) as Hfx.
    assert (Hl1 : length boxes1 = length (Frame.ammo_boxes (Main.frame w1)))
      by apply length_map.
    rewrite Hbx in Hl1.
    destruct Hx as [-> | [-> Hlt]].
    - lia.
    - rewrite length_app. cbn [length]. lia. }
  destruct (WaveManager.wave_in_progress wm1).
  - destruct (Frame.simulate hy m cam1 _ _ _) as [st3 | e] eqn:Es;
      cbn [bind] in H; [|discriminate H].
    assert (Hw' : exists f r,
               w' = Main.mk cam1
                      (wave_with_spawned
                         wm1 (Z.max (WaveManager.enemies_spawned wm1)
                                    (WaveManager.get_enemies_for_wave wm1)))
                      st3 (Main.running w1) f r).
    { destruct (Main.firing w1); injection H as <-;
        eexists; eexists; reflexivity. }
    destruct Hw' as (f & r & Hw').
    eapply Hsim; [exact Es | | | exact Hw'].
    + reflexivity.
    + rewrite length_app, Hen. lia.
  - destruct (Frame.simulate hy m cam1 _ _ _) as [st3 | e] eqn:Es;
      cbn [bind] in H; [|discriminate H].
    assert (Hw' : exists f r,
               w' = Main.mk cam1 wm1 st3 (Main.running w1) f r).
    { destruct (Main.firing w1); injection H as <-;
        eexists; eexists; reflexivity. }
    destruct Hw' as (f & r & Hw').
    eapply Hsim; [exact Es | | | exact Hw'].
    + reflexivity.
    + rewrite Hen. lia.
Qed.

(** X16. Along any run of the frame loop: an ammo count in [0, 20] stays in
    [0, 20]; the wave number never goes down and goes up by at most one per
    iteration; the enemy list never gets shorter; the number of ammo boxes
    never exceeds the larger of 3 and its initial value; and once [running]
    is false the loop body is not entered again, so the world stays as it
    is. *)
Theorem run_invariants (hy : Q -> Q -> Q) (cos sin : Q -> Q) (m : grid)
        (inputs : list Main.input) :
  forall w w' : Main.world,
    Main.run hy cos sin m inputs w = Ok w' ->
    ((0 <= ammo_of w <= 20)%Z -> (0 <= ammo_of w' <= 20)%Z)
    /\ (wave_of w <= wave_of w' <= wave_of w + Z.of_nat (length inputs))%Z
    /\ (length (Frame.enemies (Main.frame w))
        <= length (Frame.enemies (Main.frame w')))%nat
    /\ (length (Frame.ammo_boxes (Main.frame w'))
        <= Nat.max 3 (length (Frame.ammo_boxes (Main.frame w))))%nat
    /\ (Main.running w = false -> w' = w)
    /\ (Main.running w' = true -> Main.running w = true).
Proof.
  induction inputs as [| i inputs IH]; intros w w' H.
  - injection H as <-. cbn [length]. repeat split; auto; lia.
  - cbn [Main.run] in H.
    destruct (Main.running w) eqn:Erun.
    + destruct (Main.tick hy cos sin m i w) as [w1 | e] eqn:Et;
        cbn [bind] in H; [|discriminate H].
      destruct (tick_inv hy cos sin m i w w1 Et)
        as (Ha1 & Hw1 & He1 & Hb1 & _).
      destruct (IH w1 w' H) as (Ha2 & Hw2 & He2 & Hb2 & _ & _).
      cbn [length].
      split; [intros Hr; apply Ha2, Ha1, Hr|].
      split; [lia|]. split; [lia|]. split; [lia|].
      split; [discriminate | reflexivity].
    + injection H as <-. cbn [length].
      split; [intros Hr; exact Hr|].
      split; [lia|]. split; [lia|]. split; [lia|].
      split; [reflexivity | congruence].
Qed.

Lemma run_invariants_witness :
  let w := Main.initial 0.66 (4.5, 4.5) in
  let i := Main.mkInput (1 / 60) [Main.KEYDOWN_SPACE]
             (Player.mkKeys false false false false false false false false
                            false false)
             7 (fun _ => (8.5, 4.5)) (9.5, 9.5) in
  exists w',
    Main.run norm1 (fun _ => 1) (fun _ => 0) MAP [i; i] w = Ok w'
    /\ (0 <= ammo_of w' <= 20)%Z
    /\ (wave_of w <= wave_of w')%Z.
Proof.
  intros w i.
  destruct (Main.run norm1 (fun _ => 1) (fun _ => 0) MAP [i; i] w)
    as [w' | e] eqn:E.
  - exists w'. split; [reflexivity|].
    destruct (run_invariants norm1 (fun _ => 1) (fun _ => 0) MAP [i; i]
                             w w' E) as (Ha & Hw & _).
    split; [apply Ha; vm_compute; split; discriminate | lia].
  - vm_compute in E. discriminate E.
Defined.

(** ** The ray caster never fails *)

Lemma py_int_nonneg (q : Q) : 0 <= q -> py_int q = Qfloor q.
Proof.
  destruct q as [n d]. unfold Qle, py_int, Qfloor. cbn. intros H.
  apply Z.quot_div_nonneg; lia.
Qed.

Lemma py_int_lower (q : Q) : 0 <= q -> inject_Z (py_int q) <= q.
Proof.
  intros H. rewrite (py_int_nonneg q H). apply Qfloor_le.
Qed.





Section DdaProgress.

Variable m : grid.
Variables ddx ddy : Q.
Variables sx sy x0 y0 : Z.
Hypothesis Hsx : unit_step sx.
Hypothesis Hsy : unit_step sy.




End DdaProgress.







(** ** Billboards *)

Lemma py_int_nonpos (q : Q) : q <= 0 -> (py_int q <= 0)%Z.
Proof.
  intros Hq. unfold py_int.
  assert (Hn : (Qnum q <= 0)%Z).
  { unfold Qle in Hq. cbn in Hq. lia. }
  assert (E : Z.quot (Qnum q) (Zpos (Qden q))
              = (- Z.quot (- Qnum q) (Zpos (Qden q)))%Z).
  { rewrite Z.quot_opp_l by lia. lia. }
  rewrite E.
  assert (0 <= Z.quot (- Qnum q) (Zpos (Qden q)))%Z
    by (apply Z.quot_pos; lia).
  lia.
Qed.

(** The vertical shift of a billboard with a non-negative height parameter
    is at most half the sprite height. *)
Lemma v_shift_bound (hp : Q) (sh : Z) :
  0 <= hp -> (0 <= sh)%Z ->
  (2 * py_int ((0.5 - hp) * inject_Z sh) <= sh)%Z.
Proof.
  intros Hhp Hsh.
  set (v := (0.5 - hp) * inject_Z sh).
  assert (HS : 0 <= inject_Z sh).
  { change 0 with (inject_Z 0). rewrite <- Zle_Qle. exact Hsh. }
  assert (Hv : v <= (1 # 2) * inject_Z sh).
  { unfold v. apply Qmult_le_compat_r; [|exact HS].
    assert (E : 0.5 == 1 # 2) by reflexivity. lra. }
  destruct (Qlt_le_dec v 0) as [Hneg | Hpos].
  - assert (py_int v <= 0)%Z by (apply py_int_nonpos; lra). lia.
  - pose proof (py_int_lower v Hpos) as Hl.
    assert (Hq : inject_Z (2 * py_int v) <= inject_Z sh).
    { rewrite inject_Z_mult. change (inject_Z 2) with 2. lra. }
    rewrite <- Zle_Qle in Hq. exact Hq.
Qed.

(** X18. The projector raises [ZeroDivisionError] when the offset determinant
    [plane_x*dir_y - dir_x*plane_y + 1e-9] is zero: the offset moves the
    singular basis, it does not remove it.  A quad that is drawn has
    [trans_y > 0], a depth in [0, 1], a non-negative size and a horizontal
    range with [0 <= draw_start_x <= draw_end_x <= WIDTH - 1].  Vertically
    each end is clamped on one side only: [draw_start_y >= 0], and
    [draw_end_y] is at most [HEIGHT - 1] and at most
    [draw_start_y + sprite_h].  When the height parameter is not negative,
    [draw_start_y <= HALF_H] and [draw_start_y <= draw_end_y] as well, so
    the rows of the quad lie on the screen.  The [alive] flag, the velocity
    and the age of the bullet are not read. *)
Theorem project_spec (cam : camera) (b : Bullet.t) :
  (basis_det cam == 0 -> Sprites.project cam b = Raise ZeroDivisionError)
  /\ (forall q,
         Sprites.project cam b = Ok (Some q) ->
         0 < Sprites.trans_y q
         /\ 0 <= Sprites.depth q <= 1
         /\ (0 <= Sprites.sprite_h q)%Z
         /\ (0 <= Sprites.draw_start_x q <= Sprites.draw_end_x q)%Z
         /\ (Sprites.draw_end_x q <= WIDTH - 1)%Z
         /\ (0 <= Sprites.draw_start_y q)%Z
         /\ (Sprites.draw_end_y q <= HEIGHT - 1)%Z
         /\ (Sprites.draw_end_y q
             <= Sprites.draw_start_y q + Sprites.sprite_h q)%Z
         /\ (0 <= Bullet.height_param b ->
             (Sprites.draw_start_y q <= HALF_H)%Z
             /\ (Sprites.draw_start_y q <= Sprites.draw_end_y q)%Z))
  /\ Sprites.project cam b
     = Sprites.project cam (as_bullet (Bullet.x b) (Bullet.y b)
                                      (Bullet.height_param b)).
Proof.
  unfold basis_det.
  split; [|split].
  - intros Hz. unfold Sprites.project, py_div.
    apply Qeq_bool_iff in Hz. rewrite Hz. reflexivity.
  - intros q H.
    destruct (project_inv cam b q H) as (inv_det & _ & _ & Hpos & Hd).
    split; [exact Hpos|]. split; [rewrite Hd; apply clamp01_range|].
    unfold Sprites.project in H.
    destruct (py_div 1 _) as [i | e]; cbn [bind] in H; [|discriminate H].
    destruct (Qle_bool _ 0); [discriminate H|].
    destruct (py_div _ _) as [rr | e]; cbn [bind] in H; [|discriminate H].
    destruct (py_div _ _) as [hq | e]; cbn [bind] in H; [|discriminate H].
    destruct (_ || _)%bool eqn:Ecull; [discriminate H|].
    injection H as <-.
    cbn [Sprites.sprite_h Sprites.draw_start_x Sprites.draw_end_x
         Sprites.draw_start_y Sprites.draw_end_y].
    apply orb_false_iff in Ecull as [Hend Hstart].
    apply Z.ltb_ge in Hend. apply Z.leb_gt in Hstart.
    clear Hpos Hd.
    change (WIDTH - 1)%Z with 1023%Z.
    change (HEIGHT - 1)%Z with 599%Z.
    change HALF_H with 300%Z.
    pose proof (Z.abs_nonneg (py_int hq)) as Habs.
    set (sh := Z.abs (py_int hq)) in *.
    pose proof (fun Hhp => v_shift_bound (Bullet.height_param b) sh Hhp Habs)
      as Hvs.
    set (vs := py_int ((0.5 - Bullet.height_param b) * inject_Z sh)) in *.
    set (raw := (- sh / 2 + py_int (inject_Z WIDTH / 2 * (1 + rr)))%Z) in *.
    clearbody raw sh vs. change WIDTH with 1024%Z in Hstart.
    split; [exact Habs|]. split; [lia|]. split; [lia|].
    split; [apply Z.le_max_l|]. split; [apply Z.le_min_l|].
    split; [apply Z.le_min_r|].
    intros Hhp. specialize (Hvs Hhp).
    assert (Hd : (- sh / 2 + vs <= 0)%Z).
    { pose proof (Z.div_mod (- sh) 2 ltac:(lia)).
      pose proof (Z.mod_pos_bound (- sh) 2 ltac:(lia)). lia. }
    set (d := (- sh / 2)%Z) in *. clearbody d. lia.
  - reflexivity.
Qed.

Lemma project_spec_witness :
  exists q,
    Sprites.project start_camera (Bullet.init 5 10.5 10 0) = Ok (Some q)
    /\ 0 < Sprites.trans_y q
    /\ (0 <= Sprites.draw_start_x q <= Sprites.draw_end_x q)%Z
    /\ (0 <= Sprites.draw_start_y q <= Sprites.draw_end_y q)%Z
    /\ (Sprites.draw_end_y q <= HEIGHT - 1)%Z.
Proof.
  eexists. split; [vm_compute; reflexivity|].
  destruct (project_spec start_camera (Bullet.init 5 10.5 10 0))
    as (_ & H & _).
  destruct (H _ ltac:(vm_compute; reflexivity))
    as (H1 & _ & _ & H2 & _ & H3 & H4 & _ & H5).
  destruct H5 as [_ H6]; [vm_compute; discriminate|].
  split; [exact H1|]. split; [exact H2|].
  split; [split; [exact H3 | exact H6] | exact H4].
Defined.

Lemma collect_filter {A : Type} (f : A -> res (option Sprites.quad))
      (keep : A -> bool) (l : list A) :
  (forall a, keep a = false -> f a = Ok None) ->
  Billboards.collect f l = Billboards.collect f (filter keep l).
Proof.
  intros Hskip. induction l as [| a l IH]; [reflexivity|].
  cbn [filter]. destruct (keep a) eqn:E.
  - cbn [Billboards.collect]. rewrite IH. reflexivity.
  - cbn [Billboards.collect]. rewrite (Hskip a E). cbn [bind].
    rewrite IH. destruct (Billboards.collect f (filter keep l)); reflexivity.
Qed.

Lemma ammo_box_inv (cam : camera) (box : AmmoBox.t) (q : Sprites.quad) :
  Billboards.project_ammo_box cam box = Ok (Some q) ->
  AmmoBox.alive box = true
  /\ exists inv_det r hq,
       py_div 1 (basis_det cam) = Ok inv_det
       /\ Sprites.trans_x q
          = inv_det * (dir_y cam * (AmmoBox.x box - player_x cam)
                       - dir_x cam * (AmmoBox.y box - player_y cam))
       /\ Sprites.trans_y q
          = inv_det * ((- plane_y cam) * (AmmoBox.x box - player_x cam)
                       + plane_x cam * (AmmoBox.y box - player_y cam))
       /\ py_div (Sprites.trans_x q) (Sprites.trans_y q) = Ok r
       /\ py_div (inject_Z HEIGHT) (Sprites.trans_y q) = Ok hq
       /\ Sprites.sprite_screen_x q
          = py_int ((inject_Z WIDTH / 2) * (1 + r))
       /\ Sprites.sprite_h q = Z.abs (py_int (hq * 0.5))
       /\ Sprites.depth q = clamp01 (Sprites.trans_y q / FAR_PLANE).
Proof.
  unfold Billboards.project_ammo_box, basis_det.
  destruct (AmmoBox.alive box); cbn [negb]; [|discriminate].
  destruct (py_div 1 _) as [i | e]; cbn [bind]; [|discriminate].
  destruct (Qle_bool _ 0); [discriminate|].
  destruct (py_div _ _) as [rr | e] eqn:Er; cbn [bind]; [|discriminate].
  destruct (py_div (inject_Z HEIGHT) _) as [hq | e] eqn:Eh; cbn [bind];
    [|discriminate].
  destruct (_ || _)%bool; [discriminate|].
  intros H. injection H as <-. cbn.
  split; [reflexivity|]. exists i, rr, hq. repeat split; assumption.
Qed.

(** X19. The three billboard builders share one projection.  An alive enemy
    is projected exactly like a bullet at the same point with the same
    height parameter, and a dead enemy or a dead ammo box is skipped, so each
    batch equals the batch of the alive entities alone.  An ammo box that is
    drawn has the camera-space position, the screen column and the depth of
    a bullet at its point, and half the sprite height
    [|int(HEIGHT / trans_y * 0.5)|]. *)
Theorem billboards_share_projection (cam : camera) :
  (forall e : Enemy.t,
      Billboards.project_enemy cam e
      = if Enemy.alive e
        then Sprites.project cam (as_bullet (Enemy.x e) (Enemy.y e)
                                            (Enemy.height_param e))
        else Ok None)
  /\ (forall es : list Enemy.t,
         Billboards.build_enemies_batch cam es
         = Billboards.build_enemies_batch cam (filter Enemy.alive es))
  /\ (forall boxes : list AmmoBox.t,
         Billboards.build_ammo_boxes_batch cam boxes
         = Billboards.build_ammo_boxes_batch cam
             (filter AmmoBox.alive boxes))
  /\ (forall (box : AmmoBox.t) (q qb : Sprites.quad),
         Billboards.project_ammo_box cam box = Ok (Some q) ->
         Sprites.project cam (as_bullet (AmmoBox.x box) (AmmoBox.y box)
                                        (AmmoBox.height_param box))
         = Ok (Some qb) ->
         Sprites.trans_x q = Sprites.trans_x qb
         /\ Sprites.trans_y q = Sprites.trans_y qb
         /\ Sprites.sprite_screen_x q = Sprites.sprite_screen_x qb
         /\ Sprites.depth q = Sprites.depth qb
         /\ exists hq,
              py_div (inject_Z HEIGHT) (Sprites.trans_y q) = Ok hq
              /\ Sprites.sprite_h q = Z.abs (py_int (hq * 0.5))
              /\ Sprites.sprite_h qb = Z.abs (py_int hq)).
Proof.
  split; [|split; [|split]].
  - intros e. unfold Billboards.project_enemy.
    destruct (Enemy.alive e); reflexivity.
  - intros es. unfold Billboards.build_enemies_batch.
    apply collect_filter. intros e He.
    unfold Billboards.project_enemy. rewrite He. reflexivity.
  - intros boxes. unfold Billboards.build_ammo_boxes_batch.
    apply collect_filter. intros box Hb.
    unfold Billboards.project_ammo_box. rewrite Hb. reflexivity.
  - intros box q qb Hq Hqb.
    destruct (ammo_box_inv cam box q Hq)
      as (_ & i & r & hq & Hi & Htx & Hty & Hr & Hh & Hsx & Hsh & Hd).
    unfold Sprites.project in Hqb. fold (basis_det cam) in Hqb.
    rewrite Hi in Hqb. cbn [bind as_bullet Bullet.x Bullet.y
                            Bullet.height_param] in Hqb.
    rewrite <- Htx, <- Hty in Hqb.
    destruct (Qle_bool _ 0); [discriminate Hqb|].
    rewrite Hr, Hh in Hqb. cbn [bind] in Hqb.
    destruct (_ || _)%bool; [discriminate Hqb|].
    injection Hqb as <-. cbn.
    repeat split; auto. exists hq. auto.
Qed.

Lemma billboards_share_projection_witness :
  exists q qb,
    Billboards.project_ammo_box start_camera (AmmoBox.init 5 10.5)
    = Ok (Some q)
    /\ Sprites.project start_camera (as_bullet 5 10.5 0.3) = Ok (Some qb)
    /\ Sprites.depth q = Sprites.depth qb.
Proof.
  eexists. eexists.
  split; [vm_compute; reflexivity|]. split; [vm_compute; reflexivity|].
  destruct (billboards_share_projection start_camera) as (_ & _ & _ & H).
  refine (proj1 (proj2 (proj2 (proj2
    (H (AmmoBox.init 5 10.5) _ _ _ _))))); vm_compute; reflexivity.
Defined.

(** ** Screen coordinates *)

(** X20. The one-pixel columns tile the screen: the right edge of column [x]
    is the left edge of column [x + 1], every column is [2 / WIDTH] wide,
    column 0 starts at -1 and column [WIDTH - 1] ends at 1, so the columns
    of the screen stay inside [-1, 1].  [y_ndc] sends row 0 to 1 and row
    [HEIGHT] to -1, decreases with the row, and stays inside [-1, 1] for the
    rows of the screen. *)
Theorem ndc_tiling :
  (forall x : Z,
      snd (Ndc.column_ndc x) == fst (Ndc.column_ndc (x + 1))
      /\ snd (Ndc.column_ndc x) - fst (Ndc.column_ndc x)
         == 2 / inject_Z WIDTH)
  /\ fst (Ndc.column_ndc 0) == -1
  /\ snd (Ndc.column_ndc (WIDTH - 1)) == 1
  /\ (forall x : Z,
         (0 <= x < WIDTH)%Z ->
         -1 <= fst (Ndc.column_ndc x) /\ snd (Ndc.column_ndc x) <= 1)
  /\ Ndc.y_ndc 0 == 1
  /\ Ndc.y_ndc HEIGHT == -1
  /\ (forall y1 y2 : Z, (y1 <= y2)%Z -> Ndc.y_ndc y2 <= Ndc.y_ndc y1)
  /\ (forall y : Z, (0 <= y <= HEIGHT)%Z -> -1 <= Ndc.y_ndc y <= 1).
Proof.
  unfold Ndc.column_ndc, Ndc.y_ndc. cbn [fst snd].
  change (inject_Z WIDTH) with 1024. change (inject_Z HEIGHT) with 600.
  unfold Qdiv.
  change (/ 1024) with (1 # 1024). change (/ 600) with (1 # 600).
  split.
  { intros x. rewrite inject_Z_plus. change (inject_Z 1) with 1.
    split; lra. }
  split; [reflexivity|]. split; [reflexivity|]. split.
  { intros x [Hlo Hhi].
    assert (H0 : inject_Z 0 <= inject_Z x) by (rewrite <- Zle_Qle; lia).
    assert (H1 : inject_Z (x + 1) <= inject_Z 1024)
      by (rewrite <- Zle_Qle; unfold WIDTH in Hhi; lia).
    change (inject_Z 0) with 0 in H0. change (inject_Z 1024) with 1024 in H1.
    split; lra. }
  split; [reflexivity|]. split; [reflexivity|]. split.
  { intros y1 y2 Hle.
    assert (H : inject_Z y1 <= inject_Z y2) by (rewrite <- Zle_Qle; lia).
    lra. }
  intros y [Hlo Hhi].
  assert (H0 : inject_Z 0 <= inject_Z y) by (rewrite <- Zle_Qle; lia).
  assert (H1 : inject_Z y <= inject_Z 600)
    by (rewrite <- Zle_Qle; unfold HEIGHT in Hhi; lia).
  change (inject_Z 0) with 0 in H0. change (inject_Z 600) with 600 in H1.
  split; lra.
Qed.

Lemma ndc_tiling_witness :
  -1 <= fst (Ndc.column_ndc 512) /\ snd (Ndc.column_ndc 512) <= 1.
Proof.
  destruct ndc_tiling as (_ & _ & _ & H & _).
  apply H. unfold WIDTH. lia.
Defined.

(** ** Input *)



Lemma set_pos_basis (cam : camera) (p : Q * Q) :
  dir_x (Player.set_pos cam p) = dir_x cam
  /\ dir_y (Player.set_pos cam p) = dir_y cam
  /\ plane_x (Player.set_pos cam p) = plane_x cam
  /\ plane_y (Player.set_pos cam p) = plane_y cam.
Proof. repeat split. Qed.



(** ** Random positions *)

Lemma acceptable_dec (hypot : Q -> Q -> Q) (m : grid) (x y : Q) (w : bool) :
  is_wall m (py_int x) (py_int y) = Ok w ->
  (negb w && Qltb 3 (hypot (x - 3.5) (y - 10.5)) = true
   <-> acceptable hypot m (x, y)).
Proof.
  intros Hw. unfold acceptable, free. cbn [fst snd]. rewrite Hw.
  rewrite andb_true_iff, Qltb_lt, negb_true_iff.
  split; intros [H1 H2]; split; congruence.
Qed.

(** X22. On a rectangular map [find_random_valid_position] never raises and
    returns the first draw that lies in a free cell and is farther than 3
    from the player's start (3.5, 10.5): every earlier draw was in a wall or
    too close.  It fails to return exactly when no draw is acceptable. *)
Theorem find_random_valid_position_spec (hypot : Q -> Q -> Q) (m : grid)
        (draws : list (Q * Q)) :
  rectangular m = true ->
  (forall p,
      Player.find_random_valid_position hypot m draws = Some (Ok p) ->
      exists before after,
        draws = before ++ p :: after
        /\ Forall (fun d => ~ acceptable hypot m d) before
        /\ acceptable hypot m p)
  /\ (Player.find_random_valid_position hypot m draws = None
      <-> Forall (fun d => ~ acceptable hypot m d) draws)
  /\ (forall e,
         Player.find_random_valid_position hypot m draws <> Some (Raise e)).
Proof.
  intros Hrect. induction draws as [| [x y] draws IH].
  - cbn. repeat split; try discriminate. constructor.
  - destruct IH as (IH1 & IH2 & IH3).
    cbn [Player.find_random_valid_position].
    destruct (is_wall_defined m (py_int x) (py_int y) Hrect) as [w Hw].
    rewrite Hw.
    pose proof (acceptable_dec hypot m x y w Hw) as Hacc.
    assert (Hcode :
              (if negb w
               then if Qltb 3 (hypot (x - 3.5) (y - 10.5))
                    then Some (Ok (x, y))
                    else Player.find_random_valid_position hypot m draws
               else Player.find_random_valid_position hypot m draws)
              = if negb w && Qltb 3 (hypot (x - 3.5) (y - 10.5))
                then Some (Ok (x, y))
                else Player.find_random_valid_position hypot m draws).
    { destruct (negb w); reflexivity. }
    rewrite Hcode. clear Hcode.
    destruct (negb w && Qltb 3 _)%bool.
    + assert (Ha : acceptable hypot m (x, y)) by (apply Hacc; reflexivity).
      split; [|split].
      * intros p H. injection H as <-.
        exists [], draws. split; [reflexivity|]. split; [constructor | exact Ha].
      * split; [discriminate|].
        intros H. inversion H; subst. contradiction.
      * discriminate.
    + assert (Hn : ~ acceptable hypot m (x, y)).
      { intros Ha. apply Hacc in Ha. discriminate Ha. }
      split; [|split].
      * intros p H. destruct (IH1 p H) as (before & after & -> & Hb & Hp).
        exists ((x, y) :: before), after.
        split; [reflexivity|]. split; [constructor; assumption | exact Hp].
      * rewrite IH2. split.
        -- intros H. constructor; assumption.
        -- intros H. inversion H; assumption.
      * exact IH3.
Qed.

Lemma find_random_valid_position_spec_witness :
  Player.find_random_valid_position norm1 MAP
    [(2.5, 2.5); (4.5, 10.5); (8.5, 4.5)]
  = Some (Ok (8.5, 4.5))
  /\ acceptable norm1 MAP (8.5, 4.5).
Proof.
  assert (E : Player.find_random_valid_position norm1 MAP
                [(2.5, 2.5); (4.5, 10.5); (8.5, 4.5)]
              = Some (Ok (8.5, 4.5))) by reflexivity.
  split; [exact E|].
  destruct (find_random_valid_position_spec
              norm1 MAP [(2.5, 2.5); (4.5, 10.5); (8.5, 4.5)] eq_refl)
    as (H & _).
  destruct (H _ E) as (before & after & _ & _ & Ha). exact Ha.
Defined.

(** ** Batches *)

Lemma build_sprites_batch_ok (cam : camera) (bullets : list Bullet.t) :
  (forall b, In b bullets -> exists o, Sprites.project cam b = Ok o) ->
  Sprites.build_sprites_batch cam bullets
  = Ok (flat_map (drawn cam) bullets).
Proof.
  induction bullets as [| b bs IH]; intros Hall; [reflexivity|].
  cbn [Sprites.build_sprites_batch flat_map].
  destruct (Hall b (or_introl eq_refl)) as [o Ho].
  rewrite IH by (intros b0 Hin; apply Hall; right; exact Hin).
  unfold drawn. rewrite Ho. cbn [bind]. destruct o; reflexivity.
Qed.

Lemma build_sprites_batch_inv (cam : camera) (bullets : list Bullet.t) :
  forall qs,
    Sprites.build_sprites_batch cam bullets = Ok qs ->
    (forall b, In b bullets -> exists o, Sprites.project cam b = Ok o)
    /\ qs = flat_map (drawn cam) bullets.
Proof.
  induction bullets as [| b bs IH]; intros qs H.
  - injection H as <-. split; [intros b []|reflexivity].
  - cbn [Sprites.build_sprites_batch] in H.
    destruct (Sprites.project cam b) as [o | e] eqn:Ep; cbn [bind] in H;
      [|discriminate H].
    destruct (Sprites.build_sprites_batch cam bs) as [rest | e];
      cbn [bind] in H; [|discriminate H].
    destruct (IH rest eq_refl) as [Hall Hrest].
    injection H as <-. split.
    + intros b0 [<- | Hin]; [exists o; exact Ep | apply Hall, Hin].
    + cbn [flat_map]. unfold drawn at 1. rewrite Ep, <- Hrest.
      destruct o; reflexivity.
Qed.

Lemma build_sprites_batch_raise (cam : camera) (e : error) :
  forall l1 b l2,
    (forall b', In b' l1 -> exists o, Sprites.project cam b' = Ok o) ->
    Sprites.project cam b = Raise e ->
    Sprites.build_sprites_batch cam (l1 ++ b :: l2) = Raise e.
Proof.
  induction l1 as [| a l1 IH]; intros b l2 Hall Hb.
  - cbn [app Sprites.build_sprites_batch]. rewrite Hb. reflexivity.
  - cbn [app Sprites.build_sprites_batch].
    destruct (Hall a (or_introl eq_refl)) as [o Ho]. rewrite Ho.
    cbn [bind].
    rewrite (IH b l2) by
      (try exact Hb; intros b' Hin; apply Hall; right; exact Hin).
    reflexivity.
Qed.

Lemma build_sprites_batch_raise_inv (cam : camera) (e : error)
      (bullets : list Bullet.t) :
  Sprites.build_sprites_batch cam bullets = Raise e ->
  exists l1 b l2,
    bullets = l1 ++ b :: l2
    /\ (forall b', In b' l1 -> exists o, Sprites.project cam b' = Ok o)
    /\ Sprites.project cam b = Raise e.
Proof.
  induction bullets as [| b bs IH]; intros H; [discriminate H|].
  cbn [Sprites.build_sprites_batch] in H.
  destruct (Sprites.project cam b) as [o | e'] eqn:Ep; cbn [bind] in H.
  - destruct (Sprites.build_sprites_batch cam bs) as [rest | e''];
      cbn [bind] in H; [discriminate H|].
    injection H as ->.
    destruct (IH eq_refl) as (l1 & b0 & l2 & -> & Hall & Hb0).
    exists (b :: l1), b0, l2. split; [reflexivity|]. split; [|exact Hb0].
    intros b' [<- | Hin]; [exists o; exact Ep | apply Hall, Hin].
  - injection H as ->. exists [], b, bs.
    split; [reflexivity|]. split; [intros b' []|exact Ep].
Qed.

Lemma build_sprites_batch_app (cam : camera) (l1 l2 : list Bullet.t) :
  Sprites.build_sprites_batch cam (l1 ++ l2)
  = (q1 <- Sprites.build_sprites_batch cam l1 ;;
     q2 <- Sprites.build_sprites_batch cam l2 ;;
     Ok (q1 ++ q2)).
Proof.
  induction l1 as [| a l1 IH].
  - cbn [app Sprites.build_sprites_batch bind].
    destruct (Sprites.build_sprites_batch cam l2); reflexivity.
  - cbn [app Sprites.build_sprites_batch]. rewrite IH.
    destruct (Sprites.project cam a) as [o | e]; cbn [bind]; [|reflexivity].
    destruct (Sprites.build_sprites_batch cam l1) as [q1 | e]; cbn [bind];
      [|reflexivity].
    destruct (Sprites.build_sprites_batch cam l2) as [q2 | e]; cbn [bind];
      [|reflexivity].
    destruct o; reflexivity.
Qed.

(** X23. The bullet batch is built bullet by bullet.  The builder returns
    exactly when the projection of every bullet of the list returns, and
    the batch is then the drawn quads in list order: one quad for a bullet
    that is drawn, none for one that is skipped.  It raises [e] exactly when
    the first bullet whose projection raises, raises [e].  The batch of a
    concatenation is the concatenation of the batches. *)
Theorem build_sprites_batch_spec (cam : camera) (bullets : list Bullet.t) :
  (forall qs,
      Sprites.build_sprites_batch cam bullets = Ok qs <->
      (forall b, In b bullets -> exists o, Sprites.project cam b = Ok o)
      /\ qs = flat_map (drawn cam) bullets)
  /\ (forall e,
        Sprites.build_sprites_batch cam bullets = Raise e <->
        exists l1 b l2,
          bullets = l1 ++ b :: l2
          /\ (forall b', In b' l1 ->
                         exists o, Sprites.project cam b' = Ok o)
          /\ Sprites.project cam b = Raise e)
  /\ (forall l1 l2,
        bullets = l1 ++ l2 ->
        Sprites.build_sprites_batch cam bullets
        = (q1 <- Sprites.build_sprites_batch cam l1 ;;
           q2 <- Sprites.build_sprites_batch cam l2 ;;
           Ok (q1 ++ q2))).
Proof.
  split; [|split].
  - intros qs. split.
    + apply build_sprites_batch_inv.
    + intros [Hall ->]. apply build_sprites_batch_ok, Hall.
  - intros e. split.
    + apply build_sprites_batch_raise_inv.
    + intros (l1 & b & l2 & -> & Hall & Hb).
      apply build_sprites_batch_raise; assumption.
  - intros l1 l2 ->. apply build_sprites_batch_app.
Qed.

Lemma build_sprites_batch_spec_witness :
  let ahead1 := Bullet.init 5 10.5 10 0 in
  let behind := Bullet.init 1.5 10.5 10 0 in
  let ahead2 := Bullet.init 6 10.5 10 0 in
  exists q1 q2,
    Sprites.project start_camera ahead1 = Ok (Some q1)
    /\ Sprites.project start_camera behind = Ok None
    /\ Sprites.project start_camera ahead2 = Ok (Some q2)
    /\ Sprites.build_sprites_batch start_camera [ahead1; behind; ahead2]
       = Ok [q1; q2].
Proof.
  intros ahead1 behind ahead2.
  destruct (build_sprites_batch_spec start_camera [ahead1; behind; ahead2])
    as (Hok & _ & _).
  eexists. eexists.
  split; [vm_compute; reflexivity|].
  split; [vm_compute; reflexivity|].
  split; [vm_compute; reflexivity|].
  apply Hok. split.
  - intros b [<- | [<- | [<- | []]]]; eexists; vm_compute; reflexivity.
  - vm_compute. reflexivity.
Defined.

(** ** Rotation of the camera basis *)

Import Reals.
Local Open Scope R_scope.

(** C4. The rotation step of [handle_input] applies the one matrix
    [[cos rot, -sin rot], [sin rot, cos rot]] to the direction and to the
    plane vector, for every basis and every angle (for [rot = 0], where the
    step is skipped, the matrix is the identity).  The basis determinant
    [dir_x*plane_y - dir_y*plane_x] is unchanged, so its magnitude is, and
    so is the scalar product of the two vectors: perpendicular vectors stay
    perpendicular. *)
Theorem rotation_preserves_basis :
  forall (rot : R) (b : Rotation.basis),
    let b' := Rotation.rotate rot b in
    (Rotation.dir_x b', Rotation.dir_y b')
    = Rotation.apply_matrix (cos rot) (sin rot)
                            (Rotation.dir_x b, Rotation.dir_y b)
    /\ (Rotation.plane_x b', Rotation.plane_y b')
       = Rotation.apply_matrix (cos rot) (sin rot)
                               (Rotation.plane_x b, Rotation.plane_y b)
    /\ Rotation.det b' = Rotation.det b
    /\ Rabs (Rotation.det b') = Rabs (Rotation.det b)
    /\ Rotation.dir_x b' * Rotation.plane_x b'
       + Rotation.dir_y b' * Rotation.plane_y b'
       = Rotation.dir_x b * Rotation.plane_x b
         + Rotation.dir_y b * Rotation.plane_y b
    /\ forall (k : Rotation.keys) (dt : R),
         Rotation.handle_input_rotation k dt b
         = Rotation.rotate (Rotation.rot_of k dt) b.
Proof.
  intros rot b b'. subst b'.
  pose proof (sin2_cos2 rot) as Hone. unfold Rsqr in Hone.
  unfold Rotation.rotate, Rotation.apply_matrix, Rotation.det.
  destruct (Req_dec_T rot 0) as [-> | Hrot]; cbn.
  - rewrite cos_0, sin_0.
    repeat split; try (f_equal; ring).
  - assert (Hdet :
      (Rotation.dir_x b * cos rot - Rotation.dir_y b * sin rot)
      * (Rotation.plane_x b * sin rot + Rotation.plane_y b * cos rot)
      - (Rotation.dir_x b * sin rot + Rotation.dir_y b * cos rot)
        * (Rotation.plane_x b * cos rot - Rotation.plane_y b * sin rot)
      = Rotation.dir_x b * Rotation.plane_y b
        - Rotation.dir_y b * Rotation.plane_x b).
    { transitivity
        ((Rotation.dir_x b * Rotation.plane_y b
          - Rotation.dir_y b * Rotation.plane_x b)
         * (sin rot * sin rot + cos rot * cos rot)); [ring|].
      rewrite Hone. ring. }
    repeat split; try reflexivity.
    + exact Hdet.
    + rewrite Hdet. reflexivity.
    + transitivity
        ((Rotation.dir_x b * Rotation.plane_x b
          + Rotation.dir_y b * Rotation.plane_y b)
         * (sin rot * sin rot + cos rot * cos rot)); [ring|].
      rewrite Hone. ring.
Qed.
